(** * parser_engine.itemclassloader: a lazy registry of scrapy item classes

    Shallow embedding of [parser_engine/itemclassloader.py].  The registry
    object is a record of its attributes together with a trace of what it
    does to its environment (module walks, imports, warnings).  The Python
    interpreter's module system is a parameter, [World]: what
    [scrapy.utils.misc.walk_modules] enumerates under a root and what
    [importlib.import_module] gives for a dotted path. *)

From stdpp Require Import gmap strings list fin_maps.
From Stdlib Require Import Ascii.

Local Open Scope string_scope.

(** ** Python values the loader handles *)

(** A class object: its [__name__], its [__module__], whether
    [issubclass(cls, scrapy.Item)] holds, and an identity that tells apart
    two classes declared with the same name in the same module. *)
Record ClassObj := mkClass {
  cls_name : string;
  cls_module : string;
  cls_is_item : bool;
  cls_id : nat
}.

Global Instance ClassObj_eq_dec : EqDecision ClassObj.
Proof. solve_decision. Defined.

(** What a module attribute can be bound to: [None], a class, or any other
    object, of which only the truth value is observed. *)
Inductive PyValue :=
  | PyNone
  | PyClass (c : ClassObj)
  | PyOther (truth : bool) (tag : string).

Global Instance PyValue_eq_dec : EqDecision PyValue.
Proof. solve_decision. Defined.

(** [bool(v)].  Classes are instances of [type], which are true. *)
Definition truthy (v : PyValue) : bool :=
  match v with
  | PyNone => false
  | PyClass _ => true
  | PyOther b _ => b
  end.

(** [inspect.isclass(v)] *)
Definition isclass (v : PyValue) : bool :=
  match v with PyClass _ => true | _ => false end.

(** [bool(name)] for an argument that is a string or [None]. *)
Definition truthy_name (name : option string) : bool :=
  match name with
  | None => false
  | Some "" => false
  | Some _ => true
  end.

(** A module: its [__name__] and [vars(module)] in definition order. *)
Record Module := mkModule {
  mod_name : string;
  mod_vars : list (string * PyValue)
}.

(** [getattr(module, attr)]: the binding of [attr] in the module's
    dictionary, whose keys are pairwise distinct. *)
Fixpoint lookup_var (attr : string) (vars : list (string * PyValue)) : option PyValue :=
  match vars with
  | [] => None
  | (k, v) :: rest => if String.eqb k attr then Some v else lookup_var attr rest
  end.

(** ** Exceptions *)

(** Exceptions below [Exception] that the loader can meet. *)
Inductive exn :=
  | ImportError
  | ModuleNotFoundError
  | AttributeError
  | ValueError
  | TypeError
  | OtherException (tag : string).

Inductive exn_class := cImportError | cModuleNotFoundError | cException.

(** [isinstance(e, cls)]: [ModuleNotFoundError] derives from [ImportError],
    everything here derives from [Exception]. *)
Definition isinstance (e : exn) (c : exn_class) : bool :=
  match c, e with
  | cException, _ => true
  | cImportError, (ImportError | ModuleNotFoundError) => true
  | cModuleNotFoundError, ModuleNotFoundError => true
  | _, _ => false
  end.

Inductive outcome (A : Type) :=
  | Return (a : A)
  | Raise (e : exn).
Arguments Return {A} a.
Arguments Raise {A} e.

(** ** The environment *)

(** What iterating [walk_modules(root)] gives: the modules it yields, then
    either the end of the sequence or an exception. *)
Record WalkResult := mkWalk {
  walk_yield : list Module;
  walk_error : option exn
}.

Record World := mkWorld {
  walk_modules : string -> WalkResult;
  import_module : string -> outcome Module
}.

(** What the registry does to its environment, in order. *)
Inductive event :=
  | Walk (root : string)
  | Import (path : string)
  | Warn (msg : string).

(** ** The registry state *)

(** The attributes of an [ItemClassLoader] instance.  [_found] is a
    [defaultdict(list)]: a missing key reads as the empty list.
    [warn_only] is read by [_load_all_items] and assigned by neither
    [__init__] nor [__init]: [None] is the attribute being absent, [Some b]
    a value set on the instance from outside. *)
Record Loader := mkLoader {
  _found : gmap string (list (string * string));
  _items : gmap string ClassObj;
  item_modules : list string;
  _loaded : bool;
  warn_only : option bool;
  trace : list event
}.

Definition set_found (f : gmap string (list (string * string))) (s : Loader) : Loader :=
  mkLoader f (_items s) (item_modules s) (_loaded s) (warn_only s) (trace s).
Definition set_items (i : gmap string ClassObj) (s : Loader) : Loader :=
  mkLoader (_found s) i (item_modules s) (_loaded s) (warn_only s) (trace s).
Definition set_item_modules (l : list string) (s : Loader) : Loader :=
  mkLoader (_found s) (_items s) l (_loaded s) (warn_only s) (trace s).
Definition set_loaded (b : bool) (s : Loader) : Loader :=
  mkLoader (_found s) (_items s) (item_modules s) b (warn_only s) (trace s).
Definition log (e : event) (s : Loader) : Loader :=
  mkLoader (_found s) (_items s) (item_modules s) (_loaded s) (warn_only s) (trace s ++ [e])%list.

(** ** A state and exception monad for the methods *)

Definition M (A : Type) : Type := Loader -> outcome A * Loader.

Definition ret {A} (a : A) : M A := fun s => (Return a, s).
Definition raise {A} (e : exn) : M A := fun s => (Raise e, s).
Definition bind {A B} (m : M A) (k : A -> M B) : M B :=
  fun s =>
    match m s with
    | (Return a, s1) => k a s1
    | (Raise e, s1) => (Raise e, s1)
    end.
Definition modify (f : Loader -> Loader) : M unit := fun s => (Return tt, f s).
Definition gets {A} (f : Loader -> A) : M A := fun s => (Return (f s), s).
(** [try: m  except <handled>: h e] *)
Definition try_except {A} (m : M A) (handled : exn -> bool) (h : exn -> M A) : M A :=
  fun s =>
    match m s with
    | (Raise e, s1) => if handled e then h e s1 else (Raise e, s1)
    | r => r
    end.

Notation "'let!' x ':=' m 'in' k" := (bind m (fun x => k))
  (at level 10, x name, m at level 100, k at level 200).
Notation "m '>>>' k" := (bind m (fun _ => k))
  (at level 90, right associativity).

(** [for x in xs: body x] *)
Fixpoint for_each {A} (xs : list A) (body : A -> M unit) : M unit :=
  match xs with
  | [] => ret tt
  | x :: rest => body x >>> for_each rest body
  end.

(** Iterating a sequence that may raise after its last element. *)
Definition for_walk (r : WalkResult) (body : Module -> M unit) : M unit :=
  for_each (walk_yield r) body >>>
  match walk_error r with
  | None => ret tt
  | Some e => raise e
  end.

(** ** The source, function by function *)

(** The test of [iter_item_classes] on one value: [inspect.isclass(obj)
    and issubclass(obj, Item) and obj.__module__ == module.__name__]. *)
Definition is_item_class_of (m : Module) (v : PyValue) : option ClassObj :=
  match v with
  | PyClass c =>
      if cls_is_item c && String.eqb (cls_module c) (mod_name m) then Some c else None
  | _ => None
  end.

(** [iter_item_classes(module)]: the values of [vars(module)] that pass
    the test, in the order of the dictionary. *)
Definition iter_item_classes (m : Module) : list ClassObj :=
  omap (fun kv => is_item_class_of m (snd kv)) (mod_vars m).

(** The two settings the loader reads; [None] is a missing key. *)
Record Settings := mkSettings {
  ITEM_MODULES : option (list string);
  BOT_NAME : option string
}.

(** [str.rsplit('.', 1)] unpacked into two names: [None] when there is no
    separator (the unpacking raises [ValueError]). *)
Fixpoint rsplit_dot (s : string) : option (string * string) :=
  match s with
  | EmptyString => None
  | String a rest =>
      match rsplit_dot rest with
      | Some (m, c) => Some (String a m, c)
      | None => if Ascii.eqb a "."%char then Some (EmptyString, rest) else None
      end
  end.

(** ["%s" % name] *)
Definition name_repr (name : option string) : string :=
  match name with Some p => p | None => "None" end.

(** [d.get(key)] on the index: the class, or [None]. *)
Definition dict_get (key : string) (d : gmap string ClassObj) : PyValue :=
  match d !! key with
  | Some c => PyClass c
  | None => PyNone
  end.

Module ItemClassLoader.

(** [__init]: fresh attributes; the roots come from the settings. *)
Definition __init (settings : Settings) : Loader :=
  {| _found := ∅;
     _items := ∅;
     item_modules := default [] (ITEM_MODULES settings);
     _loaded := false;
     warn_only := None;
     trace := [] |}.

(** One pass of the loop body of [_load_items]. *)
Definition record_class (m : Module) (spcls : ClassObj) (s : Loader) : Loader :=
  let k := cls_name spcls in
  let s1 := set_found (<[k := (default [] (_found s !! k) ++ [(mod_name m, k)])%list]> (_found s)) s in
  set_items (<[k := spcls]> (_items s1)) s1.

Definition _load_items (m : Module) : M unit :=
  for_each (iter_item_classes m) (fun spcls => modify (record_class m spcls)).

Definition warn_message (name : string) : string :=
  "Could not load spiders from module '" +:+ name +:+ "'. See above traceback for details.".

(** The body of the loop over the roots in [_load_all_items]. *)
Definition load_root (w : World) (name : string) : M unit :=
  try_except
    (modify (log (Walk name)) >>>
     for_walk (walk_modules w name) _load_items)
    (fun e => isinstance e cImportError)
    (fun e =>
       let! wo := gets warn_only in
       match wo with
       | None => raise AttributeError
       | Some true => modify (log (Warn (warn_message name)))
       | Some false => raise e
       end).

(** [if item_modules: self.item_modules.append(item_modules)] *)
Definition add_root (item_module : option string) (s : Loader) : Loader :=
  match item_module with
  | Some r => if truthy_name item_module
              then set_item_modules (item_modules s ++ [r])%list s
              else s
  | None => s
  end.

Definition _load_all_items (w : World) (item_module : option string) : M unit :=
  modify (add_root item_module) >>>
  let! roots := gets item_modules in
  for_each roots (load_root w) >>>
  modify (set_loaded true).

(** [if not self._loaded: self._load_all_items()] *)
Definition bootstrap (w : World) : M unit :=
  let! loaded := gets _loaded in
  if loaded then ret tt else _load_all_items w None.

(** [list]: the keys of [_items], in the order of the map. *)
Definition list_ (w : World) : M (list string) :=
  bootstrap w >>>
  gets (fun s => (map_to_list (_items s)).*1).

Definition get (w : World) (name : option string) : M PyValue :=
  match name with
  | Some n =>
      if truthy_name name then
        bootstrap w >>>
        gets (fun s => dict_get n (_items s))
      else ret PyNone
  | None => ret PyNone
  end.

(** [self._items[name] = cls] for a value that passed [inspect.isclass]. *)
Definition cache (n : string) (v : PyValue) : M unit :=
  match v with
  | PyClass c => modify (fun s => set_items (<[n := c]> (_items s)) s)
  | _ => ret tt
  end.

(** The [try] block of [load]. *)
Definition load_body (w : World) (name : option string) : M PyValue :=
  let! cls := get w name in
  match name with
  | Some n =>
      if negb (truthy cls) && truthy_name name then
        match rsplit_dot n with
        | None => raise ValueError
        | Some (module, cls_name) =>
            modify (log (Import module)) >>>
            match import_module w module with
            | Raise e => raise e
            | Return md =>
                match lookup_var cls_name (mod_vars md) with
                | None => raise AttributeError
                | Some cls' =>
                    (if truthy cls' && isclass cls' then cache n cls' else ret tt) >>>
                    ret cls'
                end
            end
        end
      else ret cls
  | None => ret cls
  end.

Definition not_found_message (name : option string) : string :=
  "class " +:+ name_repr name +:+ " not found".

Definition load (w : World) (name : option string) : M PyValue :=
  try_except (load_body w name)
    (fun e => isinstance e cImportError || isinstance e cModuleNotFoundError
              || isinstance e cException)
    (fun _ => modify (log (Warn (not_found_message name))) >>> ret PyNone).

(** [__init__]: eager discovery unless [lazy_load]. *)
Definition __init__ (w : World) (lazy_load : bool) (settings : Settings) : outcome unit * Loader :=
  let s := __init settings in
  if lazy_load then (Return tt, s)
  else match BOT_NAME settings with
       | None => (Raise TypeError, s)
       | Some bot => _load_all_items w (Some (bot +:+ ".items")) s
       end.

End ItemClassLoader.

Import ItemClassLoader.

(** ** The loops and the fallback as state transformers *)

(** State after [_load_items m]. *)
Definition record_all (m : Module) (s : Loader) : Loader :=
  foldl (fun s c => record_class m c s) s (iter_item_classes m).

(** State after the modules that [walk_modules w name] yields have been
    loaded. *)
Definition walk_state (w : World) (name : string) (s : Loader) : Loader :=
  foldl (fun s m => record_all m s) (log (Walk name) s)
        (walk_yield (walk_modules w name)).

(** The fallback of [load] once [get] has answered. *)
Definition fallback (w : World) (n : string) (s1 : Loader) : outcome PyValue * Loader :=
  match rsplit_dot n with
  | None => (Raise ValueError, s1)
  | Some (m, a) =>
      match import_module w m with
      | Raise e => (Raise e, log (Import m) s1)
      | Return md =>
          match lookup_var a (mod_vars md) with
          | None => (Raise AttributeError, log (Import m) s1)
          | Some (PyClass c) =>
              (Return (PyClass c), set_items (<[n := c]> (_items s1)) (log (Import m) s1))
          | Some v => (Return v, log (Import m) s1)
          end
      end
  end.

(** ** Discovery, read off the environment *)

(** [d[c.__name__] = c] for each class of a list, in order. *)
Definition ins_all (cs : list ClassObj) (d : gmap string ClassObj) : gmap string ClassObj :=
  foldl (fun d c => <[cls_name c := c]> d) d cs.

(** The item classes of the modules a root yields, in walk order. *)
Definition root_classes (w : World) (name : string) : list ClassObj :=
  walk_yield (walk_modules w name) ≫= iter_item_classes.

(** How the loop body of [_load_all_items] ends on a root, given the
    [warn_only] attribute. *)
Definition root_outcome (w : World) (wo : option bool) (name : string) : outcome unit :=
  match walk_error (walk_modules w name) with
  | None => Return tt
  | Some e =>
      if isinstance e cImportError then
        match wo with
        | None => Raise AttributeError
        | Some true => Return tt
        | Some false => Raise e
        end
      else Raise e
  end.

Fixpoint roots_outcome (w : World) (wo : option bool) (roots : list string) : outcome unit :=
  match roots with
  | [] => Return tt
  | r :: rest =>
      match root_outcome w wo r with
      | Return _ => roots_outcome w wo rest
      | Raise e => Raise e
      end
  end.

(** The roots the loop reaches: all of them up to the first that raises. *)
Fixpoint scanned_roots (w : World) (wo : option bool) (roots : list string) : list string :=
  match roots with
  | [] => []
  | r :: rest =>
      r :: match root_outcome w wo r with
           | Return _ => scanned_roots w wo rest
           | Raise _ => []
           end
  end.

Definition discovered (w : World) (wo : option bool) (roots : list string) : list ClassObj :=
  scanned_roots w wo roots ≫= root_classes w.

(** What the loop body logs on a root: the walk, and the warning when an
    import failure is tolerated. *)
Definition root_events (w : World) (wo : option bool) (name : string) : list event :=
  Walk name ::
  match walk_error (walk_modules w name) with
  | None => []
  | Some e =>
      if isinstance e cImportError then
        match wo with
        | Some true => [Warn (warn_message name)]
        | _ => []
        end
      else []
  end.

(** ** Calls on the public interface *)

Inductive call :=
  | CallDiscoverAll (extra : option string)
  | CallList
  | CallGet (name : option string)
  | CallLoad (name : option string).

(** The registry after a call, whether the call returned or raised. *)
Definition run_call (w : World) (c : call) (s : Loader) : Loader :=
  match c with
  | CallDiscoverAll extra => (_load_all_items w extra s).2
  | CallList => (list_ w s).2
  | CallGet name => (get w name s).2
  | CallLoad name => (load w name s).2
  end.

(** The argument with which a call invokes discovery, directly or through
    the lazy bootstrap. *)
Definition discover_arg (c : call) : option string :=
  match c with
  | CallDiscoverAll extra => extra
  | _ => None
  end.

Definition run_calls (w : World) (cs : list call) (s : Loader) : Loader :=
  foldl (fun s c => run_call w c s) s cs.

(** ** Paths *)

(** Whether a path contains the separator. *)
Fixpoint has_dot (s : string) : bool :=
  match s with
  | EmptyString => false
  | String a rest => Ascii.eqb a "."%char || has_dot rest
  end.

(** The three ways the fallback of [load] fails on a path: nothing to split
    on, the containing module does not import, the module lacks the
    attribute. *)
Inductive ResolutionFailure (w : World) (n : string) : Prop :=
  | MalformedPath :
      rsplit_dot n = None -> ResolutionFailure w n
  | ImportFailure m a e :
      rsplit_dot n = Some (m, a) -> import_module w m = Raise e ->
      ResolutionFailure w n
  | AttributeFailure m a md :
      rsplit_dot n = Some (m, a) -> import_module w m = Return md ->
      lookup_var a (mod_vars md) = None ->
      ResolutionFailure w n.

(** ** A project to run the loader on *)

Module Scenario.

Definition Product : ClassObj := mkClass "Product" "shop.items.product" true 0.
Definition ScrapyItem : ClassObj := mkClass "Item" "scrapy.item" true 1.

(** [shop/items/product.py]: imports [Item], declares [Product(Item)] and a
    version string. *)
Definition product_mod : Module :=
  mkModule "shop.items.product"
    [("Item", PyClass ScrapyItem); ("Product", PyClass Product);
     ("VERSION", PyOther true "1.0")].

Definition shop_pkg : Module := mkModule "shop.items" [].

Definition FooA : ClassObj := mkClass "Foo" "a.x" true 2.
Definition FooB : ClassObj := mkClass "Foo" "b.y" true 3.

(** Two roots, [a] and [b], each with one module declaring a class [Foo]. *)
Definition twins : World :=
  mkWorld
    (fun root =>
       if String.eqb root "a" then mkWalk [mkModule "a.x" [("Foo", PyClass FooA)]] None
       else if String.eqb root "b" then mkWalk [mkModule "b.y" [("Foo", PyClass FooB)]] None
       else mkWalk [] (Some ModuleNotFoundError))
    (fun _ => Raise ModuleNotFoundError).

Definition shop : World :=
  mkWorld
    (fun root =>
       if String.eqb root "shop.items" then mkWalk [shop_pkg; product_mod] None
       else mkWalk [] (Some ModuleNotFoundError))
    (fun path =>
       if String.eqb path "shop.items.product" then Return product_mod
       else Raise ModuleNotFoundError).

Definition settings : Settings := mkSettings (Some ["shop.items"]) (Some "shop").

(** The registry as [__init__(lazy_load=True)] leaves it. *)
Definition fresh : Loader := __init settings.

(** A registry with two roots, the second one missing, on which
    [warn_only] has been set. *)
Definition tolerant : Loader :=
  {| _found := ∅;
     _items := ∅;
     item_modules := ["shop.items"; "missing.items"];
     _loaded := false;
     warn_only := Some true;
     trace := [] |}.

End Scenario.

(** ** Properties every write of the methods keeps *)

(** The elementary writes of the class: a trace entry, the loaded flag, a
    root appended, a class recorded by [_load_items], a class cached by
    [load] under a key the index lacks.  A property kept by each of them is
    kept by every method. *)
Record Kept (P : Loader -> Prop) : Prop := mkKept {
  kept_log : forall e s, P s -> P (log e s);
  kept_loaded : forall s, P s -> P (set_loaded true s);
  kept_root : forall r s, P s -> P (set_item_modules (item_modules s ++ [r])%list s);
  kept_record : forall m c s, c ∈ iter_item_classes m -> P s -> P (record_class m c s);
  kept_cache : forall n c s,
    _items s !! n = None -> P s -> P (set_items (<[n := c]> (_items s)) s)
}.

(** The occurrence log and the index agree: a name in the log is indexed,
    by an item class of that name declared in the module of the last
    occurrence logged. *)
Definition log_agrees (s : Loader) : Prop :=
  forall k occs, _found s !! k = Some occs ->
    exists c, _items s !! k = Some c /\ cls_name c = k /\ cls_is_item c = true
              /\ last occs = Some (cls_module c, k).

(** Nothing of [s0] has been dropped in [s]: its index keys, its roots, its
    log entries. *)
Definition extends (s0 s : Loader) : Prop :=
  (forall k, is_Some (_items s0 !! k) -> is_Some (_items s !! k))
  /\ item_modules s0 `prefix_of` item_modules s
  /\ (forall k, default [] (_found s0 !! k) `prefix_of` default [] (_found s !! k)).

(** The log entries that a sequence of scanned classes adds under a name:
    the declaring module of each class of that name, in scan order. *)
Definition log_entries (k : string) (cs : list ClassObj) : list (string * string) :=
  (fun c => (cls_module c, cls_name c)) <$> filter (fun c => cls_name c = k) cs.

(** ** More registries to run the loader on *)

Module Cases.

(** Three roots, the middle one missing, and [warn_only] set to false. *)
Definition strict : Loader :=
  {| _found := ∅;
     _items := ∅;
     item_modules := ["shop.items"; "missing.items"; "later.items"];
     _loaded := false;
     warn_only := Some false;
     trace := [] |}.

(** A project whose second root breaks while it is enumerated, with
    something else than an import error. *)
Definition broken : World :=
  mkWorld
    (fun root =>
       if String.eqb root "shop.items"
       then mkWalk [Scenario.shop_pkg; Scenario.product_mod] None
       else mkWalk [] (Some (OtherException "SyntaxError")))
    (fun _ => Raise ModuleNotFoundError).

(** [shop.items.product] with a helper class that is no item. *)
Definition helper : ClassObj := mkClass "Helper" "shop.items.product" false 4.

Definition tools : World :=
  mkWorld (walk_modules Scenario.shop)
    (fun path =>
       if String.eqb path "shop.items.product"
       then Return (mkModule "shop.items.product" [("Helper", PyClass helper)])
       else Raise ModuleNotFoundError).

(** The registry of the shop once loaded. *)
Definition loaded : Loader := (_load_all_items Scenario.shop None Scenario.fresh).2.

End Cases.

(** ** The loops, unfolded *)

Section Loops.

Context (w : World).

Lemma for_each_total {A} (body : A -> M unit) (g : A -> Loader -> Loader) xs :
  (forall x s, body x s = (Return tt, g x s)) ->
  forall s, for_each xs body s = (Return tt, foldl (fun s x => g x s) s xs).
Proof.
  intros Hbody. induction xs as [|x xs IH]; intros s; simpl; [done|].
  unfold bind. rewrite Hbody. apply IH.
Qed.


Lemma _load_items_eq m s : _load_items m s = (Return tt, record_all m s).
Proof. unfold _load_items, record_all. by apply for_each_total. Qed.


Lemma load_root_eq name s :
  load_root w name s =
    match walk_error (walk_modules w name) with
    | None => (Return tt, walk_state w name s)
    | Some e =>
        if isinstance e cImportError then
          match warn_only (walk_state w name s) with
          | None => (Raise AttributeError, walk_state w name s)
          | Some true => (Return tt, log (Warn (warn_message name)) (walk_state w name s))
          | Some false => (Raise e, walk_state w name s)
          end
        else (Raise e, walk_state w name s)
    end.
Proof.
  unfold load_root, try_except, for_walk, bind, modify at 1.
  rewrite (for_each_total _ record_all) by apply _load_items_eq.
  fold (walk_state w name s).
  destruct (walk_error (walk_modules w name)) as [e|]; [|done].
  unfold raise. destruct (isinstance e cImportError); [|done].
  unfold gets. by destruct (warn_only (walk_state w name s)) as [[]|].
Qed.

End Loops.

(** ** What each step leaves alone *)

Section Frames.

Context (w : World).

Lemma record_class_frame m c s :
  item_modules (record_class m c s) = item_modules s
  /\ _loaded (record_class m c s) = _loaded s
  /\ warn_only (record_class m c s) = warn_only s
  /\ trace (record_class m c s) = trace s.
Proof. done. Qed.

Lemma record_all_frame m s :
  item_modules (record_all m s) = item_modules s
  /\ _loaded (record_all m s) = _loaded s
  /\ warn_only (record_all m s) = warn_only s
  /\ trace (record_all m s) = trace s.
Proof.
  unfold record_all. generalize (iter_item_classes m) as cs.
  intros cs. revert s. induction cs as [|c cs IH]; intros s; simpl; [done|].
  destruct (IH (record_class m c s)) as (-> & -> & -> & ->). done.
Qed.

Lemma walk_state_frame name s :
  item_modules (walk_state w name s) = item_modules s
  /\ _loaded (walk_state w name s) = _loaded s
  /\ warn_only (walk_state w name s) = warn_only s
  /\ trace (walk_state w name s) = (trace s ++ [Walk name])%list.
Proof.
  unfold walk_state. generalize (walk_yield (walk_modules w name)) as ms.
  assert (forall ms s0,
    item_modules (foldl (fun s m => record_all m s) s0 ms) = item_modules s0
    /\ _loaded (foldl (fun s m => record_all m s) s0 ms) = _loaded s0
    /\ warn_only (foldl (fun s m => record_all m s) s0 ms) = warn_only s0
    /\ trace (foldl (fun s m => record_all m s) s0 ms) = trace s0) as H.
  { induction ms as [|m ms IH]; intros s0; simpl; [done|].
    destruct (IH (record_all m s0)) as (-> & -> & -> & ->).
    apply record_all_frame. }
  intros ms. destruct (H ms (log (Walk name) s)) as (-> & -> & -> & ->). done.
Qed.

Lemma load_root_frame name s :
  item_modules (load_root w name s).2 = item_modules s
  /\ _loaded (load_root w name s).2 = _loaded s
  /\ warn_only (load_root w name s).2 = warn_only s.
Proof.
  rewrite load_root_eq.
  destruct (walk_state_frame name s) as (Hm & Hl & Hw & _).
  destruct (walk_error (walk_modules w name)) as [e|]; [|by simpl].
  destruct (isinstance e cImportError); [|by simpl].
  by destruct (warn_only (walk_state w name s)) as [[]|] eqn:E; simpl; rewrite ?E.
Qed.

Lemma for_roots_frame roots s :
  item_modules (for_each roots (load_root w) s).2 = item_modules s
  /\ _loaded (for_each roots (load_root w) s).2 = _loaded s
  /\ warn_only (for_each roots (load_root w) s).2 = warn_only s.
Proof.
  revert s. induction roots as [|r roots IH]; intros s; simpl; [done|].
  unfold bind. destruct (load_root_frame r s) as (Hm & Hl & Hw).
  destruct (load_root w r s) as [[[]|e] s1]; simpl in *; [|done].
  destruct (IH s1) as (-> & -> & ->). done.
Qed.

End Frames.

(** ** Unfolding the methods *)

Section Methods.

Context (w : World).

Lemma _load_all_items_eq extra s :
  _load_all_items w extra s =
    match for_each (item_modules (add_root extra s)) (load_root w) (add_root extra s) with
    | (Return _, s1) => (Return tt, set_loaded true s1)
    | (Raise e, s1) => (Raise e, s1)
    end.
Proof.
  unfold _load_all_items, bind, modify at 1, gets. simpl.
  by destruct (for_each _ _ _) as [[[]|e] s1].
Qed.

Lemma bootstrap_eq s :
  bootstrap w s = if _loaded s then (Return tt, s) else _load_all_items w None s.
Proof. unfold bootstrap, bind, gets. by destruct (_loaded s). Qed.

Lemma truthy_name_Some n : truthy_name (Some n) = true <-> n <> "".
Proof. destruct n; simpl; split; congruence. Qed.

Lemma get_eq n s :
  n <> "" ->
  get w (Some n) s =
    match bootstrap w s with
    | (Return _, s1) => (Return (dict_get n (_items s1)), s1)
    | (Raise e, s1) => (Raise e, s1)
    end.
Proof.
  intros Hn. unfold get. apply truthy_name_Some in Hn as ->.
  unfold bind, gets. by destruct (bootstrap w s) as [[[]|e] s1].
Qed.

Lemma get_falsy name s : truthy_name name = false -> get w name s = (Return PyNone, s).
Proof. destruct name as [n|]; [|done]. unfold get. by intros ->. Qed.

(** [load] is its body with every exception turned into a warning. *)
Lemma load_eq name s :
  load w name s =
    match load_body w name s with
    | (Return v, s1) => (Return v, s1)
    | (Raise e, s1) => (Return PyNone, log (Warn (not_found_message name)) s1)
    end.
Proof.
  unfold load, try_except.
  destruct (load_body w name s) as [[v|e] s1]; [done|].
  by replace (isinstance e cException) with true by (by destruct e); rewrite !orb_true_r.
Qed.

End Methods.

Section Fallback.

Context (w : World).


Lemma load_body_eq n s :
  n <> "" ->
  load_body w (Some n) s =
    match get w (Some n) s with
    | (Raise e, s1) => (Raise e, s1)
    | (Return cls, s1) => if truthy cls then (Return cls, s1) else fallback w n s1
    end.
Proof.
  intros Hn. unfold load_body, bind at 1.
  destruct (get w (Some n) s) as [[cls|e] s1]; [|done].
  apply truthy_name_Some in Hn as ->. rewrite andb_true_r.
  destruct (truthy cls); simpl; [done|].
  unfold fallback. destruct (rsplit_dot n) as [[m a]|]; [|done].
  unfold bind, modify at 1.
  destruct (import_module w m) as [md|e]; [|done].
  destruct (lookup_var a (mod_vars md)) as [[|c|[] tag]|]; done.
Qed.

End Fallback.

(** ** [load] and [get] on an empty or absent name *)

Lemma load_falsy w name s : truthy_name name = false -> load w name s = (Return PyNone, s).
Proof.
  intros Hn. rewrite load_eq. unfold load_body, bind. rewrite get_falsy by done.
  rewrite Hn. by destruct name.
Qed.

(** C10: [get] with an empty or absent name returns [None] and leaves the
    whole registry state as it was: no lazy bootstrap, no change to the
    index or the occurrence log, nothing walked, imported or warned.
    [load] with such a name does the same. *)
Theorem get_load_empty_name_unchanged (w : World) (name : option string) (s : Loader) :
  truthy_name name = false ->
  get w name s = (Return PyNone, s) /\ load w name s = (Return PyNone, s).
Proof.
  intros Hn. split; [by apply get_falsy|by apply load_falsy].
Qed.

(** ** Splitting a path *)

Lemma rsplit_dot_None s : rsplit_dot s = None <-> has_dot s = false.
Proof.
  induction s as [|a s IH]; simpl; [done|].
  destruct (rsplit_dot s) as [[m c]|].
  - split; [done|]. intros [_ H]%orb_false_iff. by apply IH in H.
  - destruct (Ascii.eqb a "."); simpl; [done|]. split; [|done]. intros _. by apply IH.
Qed.

Lemma rsplit_dot_Some s m c :
  rsplit_dot s = Some (m, c) -> s = m +:+ "." +:+ c /\ has_dot c = false.
Proof.
  revert m. induction s as [|a s IH]; intros m; simpl; [done|].
  destruct (rsplit_dot s) as [[m' c']|] eqn:E.
  - intros [= <- <-]. destruct (IH m' eq_refl) as [-> Hc]. done.
  - destruct (Ascii.eqb a ".") eqn:Ha; [|done]. intros [= <- <-].
    apply Ascii.eqb_eq in Ha as ->. split; [done|]. by apply rsplit_dot_None.
Qed.

Lemma has_dot_nonempty p : has_dot p = true -> p <> "".
Proof. by destruct p. Qed.

(** ** The lazy bootstrap *)

Lemma _load_all_items_cases w extra s :
  (exists s1, _load_all_items w extra s = (Return tt, s1) /\ _loaded s1 = true)
  \/ (exists e s1, _load_all_items w extra s = (Raise e, s1) /\ _loaded s1 = _loaded s).
Proof.
  rewrite _load_all_items_eq.
  destruct (for_roots_frame w (item_modules (add_root extra s)) (add_root extra s))
    as (_ & Hl & _).
  destruct (for_each _ _ _) as [[[]|e] s1]; simpl in *.
  - left. by eexists.
  - right. exists e, s1. split; [done|]. rewrite Hl.
    unfold add_root. destruct extra; [|done]. by destruct (truthy_name _).
Qed.

Lemma bootstrap_cases w s :
  (exists s1, bootstrap w s = (Return tt, s1) /\ _loaded s1 = true)
  \/ (exists e s1, bootstrap w s = (Raise e, s1) /\ _loaded s1 = false /\ _loaded s = false).
Proof.
  rewrite bootstrap_eq. destruct (_loaded s) eqn:Hl.
  - left. by exists s.
  - destruct (_load_all_items_cases w None s) as [(s1 & -> & H)|(e & s1 & -> & H)].
    + left. by exists s1.
    + right. exists e, s1. by rewrite H.
Qed.

Lemma get_loaded w n s :
  _loaded s = true -> n <> "" -> get w (Some n) s = (Return (dict_get n (_items s)), s).
Proof. intros Hl Hn. rewrite get_eq by done. by rewrite bootstrap_eq, Hl. Qed.

(** A [get] that returns has left the registry loaded, unless the name was
    empty. *)
Lemma get_Return_loaded w n s v s1 :
  n <> "" -> get w (Some n) s = (Return v, s1) ->
  _loaded s1 = true /\ v = dict_get n (_items s1).
Proof.
  intros Hn. rewrite get_eq by done.
  destruct (bootstrap_cases w s) as [(s2 & -> & H)|(e & s2 & -> & _)]; [|done].
  by intros [= <- <-].
Qed.

(** ** [load] absorbs every failure *)

(** C1: [load] never raises.  Whatever the path, it returns a value; an
    exception raised anywhere in its body ends in the warning
    "class ... not found" and the result [None]; and a path that is not
    indexed and has no separator, or whose module does not import, or whose
    module lacks the attribute, does raise in the body, so it ends that way,
    with the index as [get] left it. *)
Theorem load_never_raises (w : World) (name : option string) (s : Loader) :
  (exists v s', load w name s = (Return v, s'))
  /\ (forall e s1, load_body w name s = (Raise e, s1) ->
        load w name s = (Return PyNone, log (Warn (not_found_message name)) s1))
  /\ (forall n s1,
        name = Some n -> n <> "" -> get w name s = (Return PyNone, s1) ->
        ResolutionFailure w n ->
        exists s', load w name s = (Return PyNone, s')
                   /\ last (trace s') = Some (Warn (not_found_message name))
                   /\ _items s' = _items s1).
Proof.
  split; [|split].
  - rewrite load_eq. destruct (load_body w name s) as [[v|e] s1]; by eexists _, _.
  - intros e s1 H. by rewrite load_eq, H.
  - intros n s1 -> Hn Hget Hfail.
    rewrite load_eq, load_body_eq, Hget by done. simpl. unfold fallback.
    destruct Hfail as [->|m a e -> ->|m a md -> -> ->];
      (eexists; split; [done|]; split; [|done]); simpl; by rewrite last_snoc.
Qed.

Lemma load_never_raises_witness :
  exists s',
    load Scenario.shop (Some "nodots") Scenario.fresh = (Return PyNone, s')
    /\ last (trace s') = Some (Warn (not_found_message (Some "nodots")))
    /\ _items s' = _items (get Scenario.shop (Some "nodots") Scenario.fresh).2.
Proof.
  apply (proj2 (proj2 (load_never_raises Scenario.shop (Some "nodots") Scenario.fresh))
           "nodots" (get Scenario.shop (Some "nodots") Scenario.fresh).2).
  - reflexivity.
  - discriminate.
  - vm_compute. reflexivity.
  - apply MalformedPath. vm_compute. reflexivity.
Defined.

Lemma get_load_empty_name_unchanged_witness :
  get Scenario.shop (Some "") Scenario.fresh = (Return PyNone, Scenario.fresh)
  /\ load Scenario.shop (Some "") Scenario.fresh = (Return PyNone, Scenario.fresh).
Proof. apply (get_load_empty_name_unchanged Scenario.shop (Some "") Scenario.fresh). reflexivity. Defined.

(** ** The fallback caches under the path *)

(** C2: when [load] on a dotted path [p] returns a class, the index holds
    that class under the key [p] itself; a following [get] on [p] returns
    the same class and changes nothing, in particular it imports nothing;
    every other key of the index is as [get] left it, and the class's own
    short name, having no separator, is another key than [p]. *)
Theorem load_caches_under_path (w : World) (p : string) (s s' : Loader) (c : ClassObj) :
  has_dot p = true ->
  load w (Some p) s = (Return (PyClass c), s') ->
  _items s' !! p = Some c
  /\ get w (Some p) s' = (Return (PyClass c), s')
  /\ (forall k, k <> p -> _items s' !! k = _items (get w (Some p) s).2 !! k)
  /\ (has_dot (cls_name c) = false -> cls_name c <> p).
Proof.
  intros Hdot Hload. pose proof (has_dot_nonempty _ Hdot) as Hp.
  assert (_items s' !! p = Some c /\ _loaded s' = true
          /\ forall k, k <> p -> _items s' !! k = _items (get w (Some p) s).2 !! k)
    as (Hc & Hl & Hframe).
  { rewrite load_eq, load_body_eq in Hload by done.
    destruct (get w (Some p) s) as [[cls|e] s1] eqn:Hget; [|done].
    destruct (get_Return_loaded _ _ _ _ _ Hp Hget) as [Hl1 ->].
    destruct (truthy (dict_get p (_items s1))) eqn:Ht.
    - injection Hload as Hv <-. unfold dict_get in Hv.
      destruct (_items s1 !! p) as [c1|]; [|done]. by injection Hv as ->.
    - unfold fallback in Hload.
      destruct (rsplit_dot p) as [[m a]|]; [|done].
      destruct (import_module w m) as [md|e]; [|done].
      destruct (lookup_var a (mod_vars md)) as [[|c1|b tag]|]; try done.
      injection Hload as -> <-. simpl. split; [by rewrite lookup_insert_eq|].
      split; [done|]. intros k Hk. by rewrite lookup_insert_ne. }
  split; [done|]. split; [|split; [done|]].
  - rewrite get_loaded by done. unfold dict_get. by rewrite Hc.
  - intros Hn Heq. rewrite Heq in Hn. congruence.
Qed.

Lemma load_caches_under_path_witness :
  _items (load Scenario.shop (Some "shop.items.product.Product") Scenario.fresh).2
    !! "shop.items.product.Product" = Some Scenario.Product.
Proof.
  apply (load_caches_under_path Scenario.shop "shop.items.product.Product" Scenario.fresh).
  - reflexivity.
  - vm_compute. reflexivity.
Defined.

(** ** A path that names something else than a class *)

(** C4, on the code: [shop.items.product] imports and its attribute
    [VERSION] is a string.  [load] caches nothing and warns of nothing, and
    it returns the string itself, not [None]. *)
Theorem load_returns_non_class_attribute :
  let r := load Scenario.shop (Some "shop.items.product.VERSION") Scenario.fresh in
  r.1 = Return (PyOther true "1.0")
  /\ _items r.2 !! "shop.items.product.VERSION" = None
  /\ trace r.2 = [Walk "shop.items"; Import "shop.items.product"].
Proof. vm_compute. done. Qed.

(** ** Lazy bootstrap *)

(** C5: on a registry that is not loaded yet, [get] on a non-empty name
    does exactly what [_load_all_items()] followed by [get] does: same
    result, same exception if discovery fails, same final state.  For any
    name at all, when discovery completes both return the same value. *)
Theorem lazy_bootstrap_equivalence (w : World) (name : option string) (s : Loader) :
  _loaded s = false ->
  (truthy_name name = true ->
     get w name s = (_load_all_items w None >>> get w name) s)
  /\ (forall s1, _load_all_items w None s = (Return tt, s1) ->
        (get w name s).1 = (get w name s1).1).
Proof.
  intros Hl. split.
  - destruct name as [n|]; [|done]. intros Hn%truthy_name_Some.
    rewrite get_eq, bootstrap_eq, Hl by done. unfold bind.
    destruct (_load_all_items_cases w None s) as [(s1 & -> & H)|(e & s1 & -> & H)]; [|done].
    by rewrite get_loaded.
  - intros s1 Hd. destruct (truthy_name name) eqn:Hn.
    + destruct name as [n|]; [|done]. apply truthy_name_Some in Hn.
      rewrite get_eq, bootstrap_eq, Hl, Hd by done.
      destruct (_load_all_items_cases w None s) as [(s2 & Hs & H)|(e & s2 & Hs & _)];
        [|congruence].
      rewrite Hd in Hs. injection Hs as <-. by rewrite get_loaded.
    + by rewrite !get_falsy.
Qed.

Lemma lazy_bootstrap_equivalence_witness :
  get Scenario.shop (Some "Product") Scenario.fresh
  = (_load_all_items Scenario.shop None >>> get Scenario.shop (Some "Product")) Scenario.fresh.
Proof.
  apply (lazy_bootstrap_equivalence Scenario.shop (Some "Product") Scenario.fresh);
    reflexivity.
Defined.

(** ** The index after discovery *)

Section Index.

Context (w : World).

Lemma ins_all_app cs1 cs2 d : ins_all (cs1 ++ cs2) d = ins_all cs2 (ins_all cs1 d).
Proof. apply foldl_app. Qed.

(** A key holds the last class of the list that bears it as name, or what
    it held before. *)
Lemma lookup_ins_all cs d k :
  ins_all cs d !! k =
    match last (filter (fun c => cls_name c = k) cs) with
    | Some c => Some c
    | None => d !! k
    end.
Proof.
  revert d. induction cs as [|c cs IH]; intros d; [done|].
  change (ins_all (c :: cs) d) with (ins_all cs (<[cls_name c := c]> d)).
  rewrite IH, filter_cons. case_decide as Hk.
  - rewrite last_cons. destruct (last (filter _ cs)); [done|].
    by rewrite <- Hk, lookup_insert_eq.
  - destruct (last (filter _ cs)); [done|]. by rewrite lookup_insert_ne.
Qed.

Lemma ins_all_idemp cs d : ins_all cs (ins_all cs d) = ins_all cs d.
Proof.
  apply map_eq. intros k. rewrite !lookup_ins_all.
  by destruct (last (filter _ cs)).
Qed.

Lemma ins_all_is_Some cs d c : c ∈ cs -> is_Some (ins_all cs d !! cls_name c).
Proof.
  intros Hc. rewrite lookup_ins_all.
  destruct (last (filter (fun c' => cls_name c' = cls_name c) cs)) eqn:E; [done|].
  apply last_None in E.
  assert (c ∈ filter (fun c' => cls_name c' = cls_name c) cs) as Hin
    by (by apply list_elem_of_filter).
  rewrite E in Hin. by apply elem_of_nil in Hin.
Qed.

Lemma items_fold_record m cs s :
  _items (foldl (fun s c => record_class m c s) s cs) = ins_all cs (_items s).
Proof. revert s. induction cs as [|c cs IH]; intros s; simpl; [done|]. by rewrite IH. Qed.

Lemma items_record_all m s :
  _items (record_all m s) = ins_all (iter_item_classes m) (_items s).
Proof. apply items_fold_record. Qed.

Lemma items_walk_state name s :
  _items (walk_state w name s) = ins_all (root_classes w name) (_items s).
Proof.
  unfold walk_state, root_classes.
  change (_items s) with (_items (log (Walk name) s)).
  generalize (log (Walk name) s) as s0.
  induction (walk_yield (walk_modules w name)) as [|m ms IH]; intros s0; simpl; [done|].
  by rewrite IH, items_record_all, ins_all_app.
Qed.

Lemma load_root_items name s :
  (load_root w name s).1 = root_outcome w (warn_only s) name
  /\ _items (load_root w name s).2 = ins_all (root_classes w name) (_items s).
Proof.
  rewrite load_root_eq. unfold root_outcome.
  destruct (walk_state_frame w name s) as (_ & _ & Hw & _).
  pose proof (items_walk_state name s) as Hi.
  destruct (walk_error (walk_modules w name)) as [e|]; [|done].
  destruct (isinstance e cImportError); [|done].
  rewrite Hw. by destruct (warn_only s) as [[]|].
Qed.

Lemma for_roots_items roots s :
  (for_each roots (load_root w) s).1 = roots_outcome w (warn_only s) roots
  /\ _items (for_each roots (load_root w) s).2
     = ins_all (discovered w (warn_only s) roots) (_items s).
Proof.
  unfold discovered. revert s.
  induction roots as [|r roots IH]; intros s; simpl; [done|].
  unfold bind. destruct (load_root_items r s) as [Ho Hi].
  destruct (load_root_frame w r s) as (_ & _ & Hw).
  destruct (load_root w r s) as [[[]|e] s1]; simpl in *; rewrite <- Ho.
  - destruct (IH s1) as [-> ->]. by rewrite Hw, Hi, ins_all_app.
  - by rewrite Hi, app_nil_r.
Qed.

Lemma add_root_frame extra s :
  warn_only (add_root extra s) = warn_only s
  /\ _items (add_root extra s) = _items s
  /\ _loaded (add_root extra s) = _loaded s
  /\ trace (add_root extra s) = trace s.
Proof. unfold add_root. destruct extra; [|done]. by destruct (truthy_name _). Qed.

Lemma _load_all_items_items extra s :
  let roots := item_modules (add_root extra s) in
  (_load_all_items w extra s).1 = roots_outcome w (warn_only s) roots
  /\ _items (_load_all_items w extra s).2 = ins_all (discovered w (warn_only s) roots) (_items s)
  /\ item_modules (_load_all_items w extra s).2 = roots
  /\ warn_only (_load_all_items w extra s).2 = warn_only s.
Proof.
  intros roots. rewrite _load_all_items_eq. fold roots.
  destruct (for_roots_items roots (add_root extra s)) as [Ho Hi].
  destruct (for_roots_frame w roots (add_root extra s)) as (Hm & _ & Hw).
  destruct (add_root_frame extra s) as (Hw' & Hi' & _).
  rewrite Hw', Hi' in *.
  destruct (for_each roots (load_root w) (add_root extra s)) as [[[]|e] s1]; simpl in *; done.
Qed.

End Index.

(** C6: calling [_load_all_items()] a second time, with no extra root,
    leaves the index exactly as the first call left it, and ends the same
    way (returns, or raises the same exception). *)
Theorem discovery_idempotent (w : World) (s : Loader) :
  let once := _load_all_items w None s in
  let twice := _load_all_items w None once.2 in
  _items twice.2 = _items once.2 /\ twice.1 = once.1.
Proof.
  intros once twice. subst once twice.
  destruct (_load_all_items_items w None s) as (Ho & Hi & Hm & Hw).
  destruct (_load_all_items_items w None (_load_all_items w None s).2) as (Ho2 & Hi2 & _).
  simpl in *. rewrite Ho2, Hi2, Hw, Hm, Ho, Hi. split; [|done].
  apply ins_all_idemp.
Qed.

(** ** What bulk discovery records *)

Lemma found_fold_record m cs s k :
  default [] (_found (foldl (fun s c => record_class m c s) s cs) !! k)
  = (default [] (_found s !! k)
     ++ ((fun c => (mod_name m, cls_name c)) <$> filter (fun c => cls_name c = k) cs))%list.
Proof.
  revert s. induction cs as [|c cs IH]; intros s; simpl.
  - by rewrite app_nil_r.
  - rewrite IH, filter_cons. simpl. case_decide as Hk.
    + subst k. rewrite lookup_insert_eq, fmap_cons. simpl. by rewrite <- app_assoc.
    + by rewrite lookup_insert_ne.
Qed.

Lemma elem_of_iter_item_classes m c :
  c ∈ iter_item_classes m
  <-> PyClass c ∈ (mod_vars m).*2 /\ cls_is_item c = true /\ cls_module c = mod_name m.
Proof.
  unfold iter_item_classes. rewrite list_elem_of_omap, list_elem_of_fmap. split.
  - intros ([n v] & Hin & Hv). simpl in Hv. destruct v as [|c'|]; try done. simpl in Hv.
    destruct (cls_is_item c') eqn:Hi; [|done].
    destruct (String.eqb (cls_module c') (mod_name m)) eqn:Hm; [|done].
    injection Hv as ->. apply String.eqb_eq in Hm.
    split; [by exists (n, PyClass c)|done].
  - intros (([n v] & Hv & Hin) & Hi & Hm). simpl in Hv. subst v.
    exists (n, PyClass c). split; [done|]. simpl.
    by rewrite Hi, Hm, String.eqb_refl.
Qed.

(** C7: what [_load_items] does with a scanned module.  The classes it
    takes are exactly the values bound in the module that are classes,
    derive from [Item] and name the module itself as [__module__].  Under
    every key [k] the occurrence log grows by one entry (module name, [k])
    per such class named [k], and by nothing else; the index holds under
    [k] the last such class named [k], or what it held before when there is
    none. *)
Theorem item_classes_recorded (m : Module) (s : Loader) :
  (_load_items m s).1 = Return tt
  /\ (forall c, c ∈ iter_item_classes m
        <-> PyClass c ∈ (mod_vars m).*2 /\ cls_is_item c = true
            /\ cls_module c = mod_name m)
  /\ (forall k,
        default [] (_found (_load_items m s).2 !! k)
        = (default [] (_found s !! k)
           ++ ((fun c => (mod_name m, cls_name c))
                 <$> filter (fun c => cls_name c = k) (iter_item_classes m)))%list)
  /\ (forall k,
        _items (_load_items m s).2 !! k
        = match last (filter (fun c => cls_name c = k) (iter_item_classes m)) with
          | Some c => Some c
          | None => _items s !! k
          end).
Proof.
  rewrite _load_items_eq. simpl. split; [done|].
  split; [apply elem_of_iter_item_classes|]. split.
  - intros k. apply found_fold_record.
  - intros k. by rewrite items_record_all, lookup_ins_all.
Qed.

(** ** The trace of discovery *)

Lemma load_root_trace w name s :
  trace (load_root w name s).2 = (trace s ++ root_events w (warn_only s) name)%list.
Proof.
  rewrite load_root_eq. unfold root_events.
  destruct (walk_state_frame w name s) as (_ & _ & Hw & Ht).
  destruct (walk_error (walk_modules w name)) as [e|]; [|done].
  destruct (isinstance e cImportError); [|done].
  rewrite Hw. destruct (warn_only s) as [[]|]; simpl; rewrite Ht; [|done..].
  by rewrite <- app_assoc.
Qed.

Lemma for_roots_trace w roots s :
  trace (for_each roots (load_root w) s).2
  = (trace s ++ (scanned_roots w (warn_only s) roots ≫= root_events w (warn_only s)))%list.
Proof.
  revert s. induction roots as [|r roots IH]; intros s; simpl.
  - by rewrite app_nil_r.
  - unfold bind. destruct (load_root_items w r s) as [Ho _].
    destruct (load_root_frame w r s) as (_ & _ & Hw).
    pose proof (load_root_trace w r s) as Ht.
    destruct (load_root w r s) as [[[]|e] s1]; simpl in *; rewrite <- Ho.
    + by rewrite IH, Hw, Ht, <- app_assoc.
    + by rewrite Ht, app_nil_r.
Qed.

Lemma roots_outcome_Return w wo roots :
  roots_outcome w wo roots = Return tt
  <-> forall r, r ∈ roots -> root_outcome w wo r = Return tt.
Proof.
  induction roots as [|r roots IH]; simpl.
  - split; [|done]. intros _ r Hr. by apply elem_of_nil in Hr.
  - destruct (root_outcome w wo r) as [[]|e] eqn:E.
    + rewrite IH. split.
      * intros H r' [->|Hr]%elem_of_cons; [done|by apply H].
      * intros H r' Hr. apply H. by apply elem_of_cons; right.
    + split; [done|]. intros H. specialize (H r). rewrite E in H.
      discriminate H. by apply elem_of_cons; left.
Qed.

Lemma scanned_roots_all w wo roots :
  roots_outcome w wo roots = Return tt -> scanned_roots w wo roots = roots.
Proof.
  induction roots as [|r roots IH]; simpl; [done|].
  destruct (root_outcome w wo r) as [[]|e]; [|done]. intros H. by rewrite IH.
Qed.

Lemma _load_all_items_trace w extra s :
  let roots := item_modules (add_root extra s) in
  trace (_load_all_items w extra s).2
  = (trace s ++ (scanned_roots w (warn_only s) roots ≫= root_events w (warn_only s)))%list.
Proof.
  intros roots. rewrite _load_all_items_eq. fold roots.
  pose proof (for_roots_trace w roots (add_root extra s)) as Ht.
  destruct (add_root_frame extra s) as (Hw & _ & _ & Htr). rewrite Hw, Htr in Ht.
  by destruct (for_each roots (load_root w) (add_root extra s)) as [[[]|e] s1].
Qed.

(** ** Listing a loaded registry *)

Lemma list_loaded w s :
  _loaded s = true -> list_ w s = (Return (map_to_list (_items s)).*1, s).
Proof. intros Hl. unfold list_, bind, gets. by rewrite bootstrap_eq, Hl. Qed.

Lemma elem_of_keys (d : gmap string ClassObj) k :
  is_Some (d !! k) -> k ∈ (map_to_list d).*1.
Proof.
  intros [c Hc]. apply list_elem_of_fmap. exists (k, c). split; [done|].
  by apply elem_of_map_to_list.
Qed.

Lemma filter_none {A} (P : A -> Prop) `{forall x, Decision (P x)} (l : list A) :
  (forall x, x ∈ l -> ~ P x) -> filter P l = [].
Proof.
  induction l as [|x l IH]; intros Hl; [done|].
  rewrite filter_cons_False by (apply Hl; by apply elem_of_cons; left).
  apply IH. intros y Hy. apply Hl. by apply elem_of_cons; right.
Qed.

Lemma _load_all_items_Return w extra s :
  roots_outcome w (warn_only s) (item_modules (add_root extra s)) = Return tt ->
  exists s', _load_all_items w extra s = (Return tt, s')
    /\ _loaded s' = true
    /\ _items s' = ins_all (item_modules (add_root extra s) ≫= root_classes w) (_items s)
    /\ item_modules s' = item_modules (add_root extra s)
    /\ trace s' = (trace s ++ (item_modules (add_root extra s)
                                ≫= root_events w (warn_only s)))%list.
Proof.
  intros Hr. destruct (_load_all_items_items w extra s) as (Ho & Hi & Hm & _).
  pose proof (_load_all_items_trace w extra s) as Ht. simpl in Ht.
  unfold discovered in Hi. rewrite (scanned_roots_all _ _ _ Hr) in Hi, Ht. rewrite Hr in Ho.
  destruct (_load_all_items_cases w extra s) as [(s' & Hs & Hl)|(e & s' & Hs & _)];
    rewrite Hs in *; simpl in *; [|done].
  by exists s'.
Qed.

(** ** Two classes with one short name *)

(** C8: when every configured root is enumerated to its end (or its import
    failure is tolerated), [_load_all_items] returns without raising
    whatever the names of the classes; if [c] is the last class bearing its
    short name in the sequence of classes scanned, root after root in list
    order and module after module in walk order, the index maps that name
    to [c], classes of the same name scanned earlier being overwritten; and
    the keys [list] gives are pairwise distinct. *)
Theorem last_scanned_class_wins (w : World) (extra : option string) (s : Loader)
    (pre post : list ClassObj) (c : ClassObj) :
  let roots := item_modules (add_root extra s) in
  (forall r, r ∈ roots -> root_outcome w (warn_only s) r = Return tt) ->
  roots ≫= root_classes w = (pre ++ c :: post)%list ->
  (forall c', c' ∈ post -> cls_name c' <> cls_name c) ->
  exists s' names,
    _load_all_items w extra s = (Return tt, s')
    /\ _items s' !! cls_name c = Some c
    /\ list_ w s' = (Return names, s')
    /\ NoDup names.
Proof.
  intros roots Hroots Hsplit Hpost.
  apply roots_outcome_Return in Hroots.
  destruct (_load_all_items_Return w extra s Hroots) as (s' & Hs & Hl & Hi & _).
  fold roots in Hi. rewrite Hsplit in Hi.
  exists s', (map_to_list (_items s')).*1. split; [done|]. split; [|split].
  - rewrite Hi, lookup_ins_all, filter_app, filter_cons_True by done.
    rewrite (filter_none _ post) by done. by rewrite last_snoc.
  - by apply list_loaded.
  - apply NoDup_fst_map_to_list.
Qed.

Lemma last_scanned_class_wins_witness :
  exists s' names,
    _load_all_items Scenario.twins None (__init (mkSettings (Some ["a"; "b"]) None))
      = (Return tt, s')
    /\ _items s' !! "Foo" = Some Scenario.FooB
    /\ list_ Scenario.twins s' = (Return names, s')
    /\ NoDup names.
Proof.
  apply (last_scanned_class_wins Scenario.twins None
           (__init (mkSettings (Some ["a"; "b"]) None))
           [Scenario.FooA] [] Scenario.FooB).
  - intros r Hr. simpl in Hr.
    apply elem_of_cons in Hr as [->|Hr]; [reflexivity|].
    apply elem_of_cons in Hr as [->|Hr]; [reflexivity|].
    by apply elem_of_nil in Hr.
  - reflexivity.
  - intros c' Hc'. by apply elem_of_nil in Hc'.
Defined.

(** ** Warn-only discovery *)

(** The handler of the loop, were [warn_only] set to true on the instance
    from outside the class: with two roots, one enumerated to its end and
    one whose enumeration raises an import error, discovery would return,
    warn of the failing root, set [_loaded] and index the item classes of
    the good root.  No registry the class builds is in that state. *)
Lemma warn_only_skips_unresolvable_root (w : World) (s : Loader)
    (good bad : string) (e : exn) :
  warn_only s = Some true ->
  item_modules s = [good; bad] \/ item_modules s = [bad; good] ->
  walk_error (walk_modules w good) = None ->
  walk_error (walk_modules w bad) = Some e ->
  isinstance e cImportError = true ->
  exists s' names,
    _load_all_items w None s = (Return tt, s')
    /\ _loaded s' = true
    /\ Warn (warn_message bad) ∈ trace s'
    /\ list_ w s' = (Return names, s')
    /\ (forall c, c ∈ root_classes w good -> cls_name c ∈ names)
    /\ (walk_yield (walk_modules w bad) = [] ->
        _items s' = ins_all (root_classes w good) (_items s)).
Proof.
  intros Hwo Hroots Hgood Hbad He.
  assert (root_outcome w (warn_only s) good = Return tt) as Hog
    by (unfold root_outcome; by rewrite Hgood).
  assert (root_outcome w (warn_only s) bad = Return tt) as Hob
    by (unfold root_outcome; by rewrite Hbad, He, Hwo).
  assert (Warn (warn_message bad) ∈ root_events w (warn_only s) bad) as Hev.
  { unfold root_events. rewrite Hbad, He, Hwo. apply elem_of_cons; right.
    by apply elem_of_cons; left. }
  assert (good ∈ item_modules s /\ bad ∈ item_modules s) as [Hgin Hbin].
  { destruct Hroots as [-> | ->]; split;
      repeat (apply elem_of_cons; (by left) || right); done. }
  assert (roots_outcome w (warn_only s) (item_modules (add_root None s)) = Return tt) as Hr.
  { apply roots_outcome_Return. simpl.
    destruct Hroots as [-> | ->]; intros r Hr;
      apply elem_of_cons in Hr as [->|Hr]; try done;
      apply elem_of_cons in Hr as [->|Hr]; try done; by apply elem_of_nil in Hr. }
  destruct (_load_all_items_Return w None s Hr) as (s' & Hs & Hl & Hi & _ & Ht).
  simpl in Hi, Ht.
  exists s', (map_to_list (_items s')).*1. split; [done|]. split; [done|].
  split; [|split; [by apply list_loaded|split]].
  - rewrite Ht. apply elem_of_app; right. apply list_elem_of_bind. by exists bad.
  - intros c Hc. apply elem_of_keys. rewrite Hi. apply ins_all_is_Some.
    apply list_elem_of_bind. by exists good.
  - intros Hy. rewrite Hi.
    assert (root_classes w bad = []) as Hnil by (unfold root_classes; by rewrite Hy).
    destruct Hroots as [-> | ->]; simpl; by rewrite Hnil, ?app_nil_r.
Qed.

(** C3, on the code: a registry constructed with the roots [shop.items],
    which resolves, and [missing.items], which does not.  Nothing sets
    [warn_only], so the handler of the import error raises
    [AttributeError] when it reads the attribute: discovery does not
    complete, no warning is emitted and [_loaded] stays false.  [Product],
    found under the good root before the failure, is in the index, but
    [list] runs discovery again and raises the same. *)
Theorem warn_only_mode_never_enabled :
  let s := (__init__ Scenario.shop true
              (mkSettings (Some ["shop.items"; "missing.items"]) (Some "shop"))).2 in
  let r := _load_all_items Scenario.shop None s in
  warn_only s = None
  /\ r.1 = Raise AttributeError
  /\ _loaded r.2 = false
  /\ trace r.2 = [Walk "shop.items"; Walk "missing.items"]
  /\ _items r.2 !! "Product" = Some Scenario.Product
  /\ (list_ Scenario.shop r.2).1 = Raise AttributeError.
Proof. vm_compute. repeat split. Qed.

(** ** The loaded flag *)

(** Case analysis along [fallback]: the split, the import, the attribute. *)
Ltac fallback_cases w n :=
  unfold fallback;
  destruct (rsplit_dot n) as [[?m ?a]|]; [|done];
  destruct (import_module w _) as [?md|?e]; [|done];
  destruct (lookup_var _ (mod_vars _)) as [[|?c|?b ?tag]|]; try done.

Lemma run_call_loaded w c s : _loaded s = true -> _loaded (run_call w c s) = true.
Proof.
  intros Hl. destruct c as [extra| |name|name]; simpl.
  - destruct (_load_all_items_cases w extra s) as [(s1 & -> & H)|(e & s1 & -> & H)];
      simpl; congruence.
  - by rewrite list_loaded.
  - destruct (truthy_name name) eqn:Hn; [|by rewrite get_falsy].
    destruct name as [n|]; [|done]. apply truthy_name_Some in Hn. by rewrite get_loaded.
  - destruct (truthy_name name) eqn:Hn; [|by rewrite load_falsy].
    destruct name as [n|]; [|done]. apply truthy_name_Some in Hn.
    rewrite load_eq, load_body_eq, get_loaded by done.
    destruct (truthy _); [done|]. fallback_cases w n.
Qed.

(** A discovery that returns has walked every configured root. *)
Lemma discovery_walks_all w extra s s1 :
  _load_all_items w extra s = (Return tt, s1) ->
  exists t, trace s1 = (trace s ++ t)%list /\ forall r, r ∈ item_modules s1 -> Walk r ∈ t.
Proof.
  intros Hs. destruct (_load_all_items_items w extra s) as (Ho & _).
  rewrite Hs in Ho. simpl in Ho. symmetry in Ho.
  destruct (_load_all_items_Return w extra s Ho) as (s' & Hs' & _ & _ & Hm & Ht).
  rewrite Hs in Hs'. injection Hs' as <-.
  eexists. split; [exact Ht|]. intros r Hr. rewrite Hm in Hr.
  apply list_elem_of_bind. exists r. split; [|done]. by apply elem_of_cons; left.
Qed.

Lemma run_call_becomes_loaded w c s :
  _loaded s = false -> _loaded (run_call w c s) = true ->
  exists s1, _load_all_items w (discover_arg c) s = (Return tt, s1).
Proof.
  intros Hl.
  assert (forall extra, _loaded (_load_all_items w extra s).2 = true ->
            exists s1, _load_all_items w extra s = (Return tt, s1)) as Hd.
  { intros extra.
    destruct (_load_all_items_cases w extra s) as [(s1 & -> & H)|(e & s1 & -> & H)]; simpl.
    - by exists s1.
    - congruence. }
  assert (_loaded (bootstrap w s).2 = true ->
            exists s1, _load_all_items w None s = (Return tt, s1)) as Hb.
  { rewrite bootstrap_eq, Hl. apply Hd. }
  destruct c as [extra| |name|name]; simpl.
  - apply Hd.
  - intros H. apply Hb. revert H. unfold list_, bind, gets.
    by destruct (bootstrap w s) as [[[]|e] s1].
  - destruct (truthy_name name) eqn:Hn; [|rewrite get_falsy by done; simpl; congruence].
    destruct name as [n|]; [|done]. apply truthy_name_Some in Hn.
    intros H. apply Hb. revert H. rewrite get_eq by done.
    by destruct (bootstrap w s) as [[[]|e] s1].
  - destruct (truthy_name name) eqn:Hn; [|rewrite load_falsy by done; simpl; congruence].
    destruct name as [n|]; [|done]. apply truthy_name_Some in Hn.
    intros H. apply Hb. revert H. rewrite load_eq, load_body_eq, get_eq by done.
    destruct (bootstrap w s) as [[[]|e] s1]; [|done]. simpl.
    destruct (truthy _); [done|]. fallback_cases w n.
Qed.

(** C9: the loaded flag goes one way.  [__init] leaves it false.  A call
    of [_load_all_items], [list], [get] or [load] that finds it false and
    leaves it true has run a discovery from that state which returned,
    having walked every configured root.  Once it is true, no sequence of
    such calls, returning or raising, makes it false again. *)
Theorem loaded_flag_one_way (w : World) (settings : Settings) :
  _loaded (__init settings) = false
  /\ (forall c s,
        _loaded s = false -> _loaded (run_call w c s) = true ->
        exists s1 t,
          _load_all_items w (discover_arg c) s = (Return tt, s1)
          /\ trace s1 = (trace s ++ t)%list
          /\ forall r, r ∈ item_modules s1 -> Walk r ∈ t)
  /\ (forall cs s, _loaded s = true -> _loaded (run_calls w cs s) = true).
Proof.
  split; [done|]. split.
  - intros c s Hl Hl'. destruct (run_call_becomes_loaded w c s Hl Hl') as [s1 Hs].
    destruct (discovery_walks_all _ _ _ _ Hs) as (t & Ht & Hw). by exists s1, t.
  - intros cs. unfold run_calls. induction cs as [|c cs IH]; intros s Hl; simpl; [done|].
    apply IH. by apply run_call_loaded.
Qed.

Lemma loaded_flag_one_way_witness :
  (exists s1 t,
     _load_all_items Scenario.shop None Scenario.fresh = (Return tt, s1)
     /\ trace s1 = (trace Scenario.fresh ++ t)%list
     /\ forall r, r ∈ item_modules s1 -> Walk r ∈ t)
  /\ _loaded (run_calls Scenario.shop
                [CallLoad (Some "no.such.Thing"); CallDiscoverAll (Some "missing.items");
                 CallGet (Some "Product"); CallList]
                (run_call Scenario.shop (CallGet (Some "Product")) Scenario.fresh)) = true.
Proof.
  destruct (loaded_flag_one_way Scenario.shop Scenario.settings) as (_ & Hup & Hstay).
  split.
  - apply (Hup (CallGet (Some "Product")) Scenario.fresh); vm_compute; reflexivity.
  - apply Hstay. vm_compute. reflexivity.
Defined.

(** * Further properties of the loader *)

(** ** What every method keeps *)

Section KeptByMethods.

Context (w : World) (P : Loader -> Prop) (HP : Kept P).

Lemma kept_record_all m s : P s -> P (record_all m s).
Proof.
  unfold record_all.
  assert (forall cs, (forall c, c ∈ cs -> c ∈ iter_item_classes m) ->
            forall s0, P s0 -> P (foldl (fun s c => record_class m c s) s0 cs)) as H.
  { induction cs as [|c cs IH]; intros Hcs s0 Hs0; simpl; [done|].
    apply IH.
    - intros c' Hc'. apply Hcs. by apply elem_of_cons; right.
    - apply (kept_record P HP). apply Hcs. by apply elem_of_cons; left. done. }
  by apply H.
Qed.

Lemma kept_walk_state name s : P s -> P (walk_state w name s).
Proof.
  intros Hs. unfold walk_state.
  assert (P (log (Walk name) s)) as H0 by by apply (kept_log P HP).
  revert H0. generalize (log (Walk name) s) as s0.
  induction (walk_yield (walk_modules w name)) as [|m ms IH]; intros s0 Hs0; simpl; [done|].
  apply IH. by apply kept_record_all.
Qed.

Lemma kept_load_root name s : P s -> P (load_root w name s).2.
Proof.
  intros Hs. rewrite load_root_eq. pose proof (kept_walk_state name s Hs) as Hw.
  destruct (walk_error (walk_modules w name)) as [e|]; [|done].
  destruct (isinstance e cImportError); [|done].
  destruct (warn_only (walk_state w name s)) as [[]|]; simpl; [|done..].
  by apply (kept_log P HP).
Qed.

Lemma kept_for_roots roots s : P s -> P (for_each roots (load_root w) s).2.
Proof.
  revert s. induction roots as [|r roots IH]; intros s Hs; simpl; [done|].
  unfold bind. pose proof (kept_load_root r s Hs) as Hr.
  destruct (load_root w r s) as [[[]|e] s1]; simpl in *; [by apply IH|done].
Qed.

Lemma kept_add_root extra s : P s -> P (add_root extra s).
Proof.
  intros Hs. unfold add_root. destruct extra as [r|]; [|done].
  destruct (truthy_name (Some r)); [|done]. by apply (kept_root P HP).
Qed.

Lemma kept__load_all_items extra s : P s -> P (_load_all_items w extra s).2.
Proof.
  intros Hs. rewrite _load_all_items_eq.
  pose proof (kept_for_roots (item_modules (add_root extra s)) _ (kept_add_root extra s Hs)) as H.
  destruct (for_each _ _ _) as [[[]|e] s1]; simpl in *; [|done].
  by apply (kept_loaded P HP).
Qed.

Lemma kept_bootstrap s : P s -> P (bootstrap w s).2.
Proof.
  intros Hs. rewrite bootstrap_eq. destruct (_loaded s); [done|].
  by apply kept__load_all_items.
Qed.

Lemma kept_get name s : P s -> P (get w name s).2.
Proof.
  intros Hs. destruct (truthy_name name) eqn:Hn; [|by rewrite get_falsy].
  destruct name as [n|]; [|done]. apply truthy_name_Some in Hn.
  rewrite get_eq by done. pose proof (kept_bootstrap s Hs) as Hb.
  by destruct (bootstrap w s) as [[[]|e] s1].
Qed.

Lemma kept_list s : P s -> P (list_ w s).2.
Proof.
  intros Hs. unfold list_, bind, gets. pose proof (kept_bootstrap s Hs) as Hb.
  by destruct (bootstrap w s) as [[[]|e] s1].
Qed.

Lemma kept_load name s : P s -> P (load w name s).2.
Proof.
  intros Hs. destruct (truthy_name name) eqn:Hn; [|by rewrite load_falsy].
  destruct name as [n|]; [|done]. apply truthy_name_Some in Hn.
  rewrite load_eq, load_body_eq by done.
  pose proof (kept_get (Some n) s Hs) as Hg.
  destruct (get w (Some n) s) as [[cls|e] s1] eqn:Hget; simpl in *;
    [|by apply (kept_log P HP)].
  destruct (get_Return_loaded _ _ _ _ _ Hn Hget) as [_ ->].
  destruct (truthy (dict_get n (_items s1))) eqn:Ht; [done|].
  assert (_items s1 !! n = None) as Hnone.
  { unfold dict_get in Ht. by destruct (_items s1 !! n). }
  unfold fallback. destruct (rsplit_dot n) as [[m a]|]; [|by apply (kept_log P HP)].
  assert (P (log (Import m) s1)) as Hi by by apply (kept_log P HP).
  destruct (import_module w m) as [md|e]; [|by apply (kept_log P HP)].
  destruct (lookup_var a (mod_vars md)) as [[|c|b tag]|]; simpl;
    try done; try by apply (kept_log P HP).
  by apply (kept_cache P HP n c (log (Import m) s1)).
Qed.

Lemma kept_run_call c s : P s -> P (run_call w c s).
Proof.
  destruct c; simpl;
    [apply kept__load_all_items | apply kept_list | apply kept_get | apply kept_load].
Qed.

Lemma kept_run_calls cs s : P s -> P (run_calls w cs s).
Proof.
  unfold run_calls. revert s. induction cs as [|c cs IH]; intros s Hs; simpl; [done|].
  apply IH. by apply kept_run_call.
Qed.

End KeptByMethods.

(** ** Invariants of the registry *)

Lemma log_agrees_kept : Kept log_agrees.
Proof.
  split; try (intros; assumption).
  - intros m c s Hc Hs k occs. apply elem_of_iter_item_classes in Hc as (_ & Hi & Hm).
    cbn. destruct (decide (cls_name c = k)) as [<-|Hk].
    + rewrite !lookup_insert_eq. intros [= <-]. exists c.
      by rewrite last_snoc, Hm.
    + rewrite !lookup_insert_ne by done. apply Hs.
  - intros n c s Hn Hs k occs Hk. destruct (Hs k occs Hk) as (c' & Hc' & H).
    exists c'. split; [|done]. cbn. rewrite lookup_insert_ne; [done|]. congruence.
Qed.

Lemma extends_refl s : extends s s.
Proof. by repeat split. Qed.

Lemma extends_kept s0 : Kept (extends s0).
Proof.
  split; try (intros; assumption).
  - intros r s (Hk & Hr & Hf). split; [done|]. split; [|done]. by apply prefix_app_r.
  - intros m c s _ (Hk & Hr & Hf). split; [|split; [done|]].
    + intros k Hs0. cbn. destruct (decide (cls_name c = k)) as [<-|Hne].
      * by rewrite lookup_insert_eq.
      * rewrite lookup_insert_ne by done. by apply Hk.
    + intros k. cbn. destruct (decide (cls_name c = k)) as [<-|Hne].
      * rewrite lookup_insert_eq. simpl. by apply prefix_app_r.
      * by rewrite lookup_insert_ne.
  - intros n c s _ (Hk & Hr & Hf). split; [|done].
    intros k Hs0. cbn. destruct (decide (n = k)) as [<-|Hne].
    + by rewrite lookup_insert_eq.
    + rewrite lookup_insert_ne by done. by apply Hk.
Qed.

(** X6: Whatever the calls made on a registry since its construction, lazy or
    eager, every name of the occurrence log is a key of the index, bound to
    an item class of that name, declared in the module that the last log
    entry of the name gives. *)
Theorem log_agrees_always (w : World) (lazy_load : bool) (settings : Settings)
    (cs : list call) :
  log_agrees (run_calls w cs (__init__ w lazy_load settings).2).
Proof.
  apply kept_run_calls; [apply log_agrees_kept|].
  assert (log_agrees (__init settings)) as H0.
  { intros k occs Hk. cbn in Hk. by rewrite lookup_empty in Hk. }
  unfold __init__. destruct lazy_load; [done|].
  destruct (BOT_NAME settings) as [bot|]; [|done].
  by apply kept__load_all_items; [apply log_agrees_kept|].
Qed.

(** X7: No call ever removes a key from the index, a root from the list of
    roots, or an entry from the occurrence log: after any sequence of calls
    the keys are still indexed, the old roots are a prefix of the new ones
    and each old log list is a prefix of the new one. *)
Theorem nothing_dropped (w : World) (cs : list call) (s : Loader) :
  extends s (run_calls w cs s).
Proof. apply kept_run_calls; [apply extends_kept|apply extends_refl]. Qed.

(** ** Discovery that stops *)

Lemma roots_outcome_first_failure w wo pre bad post e :
  (forall r, r ∈ pre -> root_outcome w wo r = Return tt) ->
  root_outcome w wo bad = Raise e ->
  roots_outcome w wo (pre ++ bad :: post) = Raise e
  /\ scanned_roots w wo (pre ++ bad :: post) = (pre ++ [bad])%list.
Proof.
  intros Hpre Hbad. induction pre as [|r pre IH]; simpl.
  - by rewrite Hbad.
  - rewrite (Hpre r) by (by apply elem_of_cons; left).
    destruct IH as [-> ->]; [|done]. intros r' Hr'. apply Hpre. by apply elem_of_cons; right.
Qed.

Lemma walk_in_root_events w wo rs r :
  Walk r ∈ rs ≫= root_events w wo <-> r ∈ rs.
Proof.
  rewrite list_elem_of_bind. split.
  - intros (r' & Hev & Hr'). unfold root_events in Hev.
    apply elem_of_cons in Hev as [[= ->]|Hev]; [done|].
    destruct (walk_error (walk_modules w r')) as [e|]; [|by apply elem_of_nil in Hev].
    destruct (isinstance e cImportError); [|by apply elem_of_nil in Hev].
    destruct wo as [[]|]; try by apply elem_of_nil in Hev.
    apply elem_of_cons in Hev as [[=]|Hev]. by apply elem_of_nil in Hev.
  - intros Hr. exists r. split; [|done]. by apply elem_of_cons; left.
Qed.

(** Discovery stops at the first root whose loop body raises: it raises
    the same, the flag is not set, the classes of the roots up to that one
    are indexed and no later root is walked. *)
Lemma discovery_stops w extra s pre bad post e :
  item_modules (add_root extra s) = (pre ++ bad :: post)%list ->
  (forall r, r ∈ pre -> root_outcome w (warn_only s) r = Return tt) ->
  root_outcome w (warn_only s) bad = Raise e ->
  exists s' t,
    _load_all_items w extra s = (Raise e, s')
    /\ _loaded s' = _loaded s
    /\ _items s' = ins_all ((pre ++ [bad])%list ≫= root_classes w) (_items s)
    /\ trace s' = (trace s ++ t)%list
    /\ forall r, Walk r ∈ t <-> r ∈ pre \/ r = bad.
Proof.
  intros Hroots Hpre Hbad.
  destruct (roots_outcome_first_failure w _ pre bad post e Hpre Hbad) as [Ho Hsc].
  destruct (_load_all_items_items w extra s) as (Ho' & Hi & _).
  pose proof (_load_all_items_trace w extra s) as Ht. simpl in Ht.
  unfold discovered in Hi. rewrite Hroots in *. rewrite Ho in Ho'. rewrite Hsc in Hi, Ht.
  destruct (_load_all_items_cases w extra s) as [(s' & Hs & _)|(e' & s' & Hs & Hl)];
    rewrite Hs in *; simpl in *; [done|]. injection Ho' as ->.
  exists s', ((pre ++ [bad])%list ≫= root_events w (warn_only s)).
  repeat (split; [done|]). intros r. rewrite walk_in_root_events, elem_of_app.
  by rewrite list_elem_of_singleton.
Qed.

(** X3: An exception of the enumeration that is not an import error is never
    tolerated: whatever [warn_only] is, true included, [_load_all_items]
    raises it and leaves the flag as it was. *)
Theorem other_error_not_tolerated (w : World) (s : Loader) (pre post : list string)
    (bad : string) (e : exn) :
  item_modules s = (pre ++ bad :: post)%list ->
  (forall r, r ∈ pre -> walk_error (walk_modules w r) = None) ->
  walk_error (walk_modules w bad) = Some e ->
  isinstance e cImportError = false ->
  exists s', _load_all_items w None s = (Raise e, s') /\ _loaded s' = _loaded s.
Proof.
  intros Hroots Hpre Hbad He.
  destruct (discovery_stops w None s pre bad post e) as (s' & t & Hs & Hl & _);
    [done| |unfold root_outcome; by rewrite Hbad, He|].
  { intros r Hr. unfold root_outcome. by rewrite (Hpre r Hr). }
  by exists s'.
Qed.

Lemma other_error_not_tolerated_witness :
  exists s',
    _load_all_items Cases.broken None Scenario.tolerant
      = (Raise (OtherException "SyntaxError"), s')
    /\ _loaded s' = _loaded Scenario.tolerant.
Proof.
  apply (other_error_not_tolerated Cases.broken Scenario.tolerant
           ["shop.items"] [] "missing.items" (OtherException "SyntaxError")).
  - reflexivity.
  - intros r Hr. apply list_elem_of_singleton in Hr as ->. reflexivity.
  - reflexivity.
  - reflexivity.
Defined.

(** ** The attribute [warn_only] *)

Lemma warn_only_kept wo : Kept (fun s => warn_only s = wo).
Proof. split; intros; assumption. Qed.

Lemma warn_only_after_construction w lazy_load settings :
  warn_only (__init__ w lazy_load settings).2 = None.
Proof.
  unfold __init__. destruct lazy_load; [done|].
  destruct (BOT_NAME settings) as [bot|]; [|done].
  by apply kept__load_all_items; [apply warn_only_kept|].
Qed.

(** X4: The constructor does not set [warn_only] and no method does: after any
    calls on a constructed registry the attribute is still absent, and a
    discovery that meets a root whose enumeration raises an import error
    raises [AttributeError] in its place. *)
Theorem import_error_masked (w : World) (lazy_load : bool) (settings : Settings)
    (cs : list call) (pre post : list string) (bad : string) (e : exn) :
  let s := run_calls w cs (__init__ w lazy_load settings).2 in
  item_modules s = (pre ++ bad :: post)%list ->
  (forall r, r ∈ pre -> walk_error (walk_modules w r) = None) ->
  walk_error (walk_modules w bad) = Some e ->
  isinstance e cImportError = true ->
  warn_only s = None
  /\ exists s', _load_all_items w None s = (Raise AttributeError, s')
                /\ _loaded s' = _loaded s.
Proof.
  intros s Hroots Hpre Hbad He.
  assert (warn_only s = None) as Hwo.
  { apply kept_run_calls; [apply warn_only_kept|apply warn_only_after_construction]. }
  split; [done|].
  destruct (discovery_stops w None s pre bad post AttributeError)
    as (s' & t & Hs & Hl & _);
    [done| |unfold root_outcome; by rewrite Hbad, He, Hwo|].
  { intros r Hr. unfold root_outcome. by rewrite (Hpre r Hr). }
  by exists s'.
Qed.

Lemma import_error_masked_witness :
  let s := run_calls Scenario.shop [CallLoad (Some "shop.items.product.Product")]
             (__init__ Scenario.shop true
                (mkSettings (Some ["shop.items"; "missing.items"]) (Some "shop"))).2 in
  warn_only s = None
  /\ exists s', _load_all_items Scenario.shop None s = (Raise AttributeError, s')
                /\ _loaded s' = _loaded s.
Proof.
  apply (import_error_masked Scenario.shop true
           (mkSettings (Some ["shop.items"; "missing.items"]) (Some "shop"))
           [CallLoad (Some "shop.items.product.Product")]
           ["shop.items"] [] "missing.items" ModuleNotFoundError).
  - vm_compute. reflexivity.
  - intros r Hr. apply list_elem_of_singleton in Hr as ->. reflexivity.
  - reflexivity.
  - reflexivity.
Defined.

(** ** The occurrence log after discovery *)

Section OccurrenceLog.

Context (w : World) (k : string).

Lemma log_entries_app cs1 cs2 :
  log_entries k (cs1 ++ cs2) = (log_entries k cs1 ++ log_entries k cs2)%list.
Proof. unfold log_entries. by rewrite filter_app, fmap_app. Qed.

Lemma found_fold_entries m cs s :
  (forall c, c ∈ cs -> cls_module c = mod_name m) ->
  default [] (_found (foldl (fun s c => record_class m c s) s cs) !! k)
  = (default [] (_found s !! k) ++ log_entries k cs)%list.
Proof.
  unfold log_entries. revert s. induction cs as [|c cs IH]; intros s Hcs; simpl.
  - by rewrite app_nil_r.
  - rewrite IH by (intros c' Hc'; apply Hcs; by apply elem_of_cons; right).
    rewrite filter_cons. cbn. case_decide as Hk.
    + rewrite Hk, lookup_insert_eq, fmap_cons, (Hcs c) by (by apply elem_of_cons; left).
      simpl. by rewrite <- app_assoc, Hk.
    + by rewrite lookup_insert_ne.
Qed.

Lemma found_record_all m s :
  default [] (_found (record_all m s) !! k)
  = (default [] (_found s !! k) ++ log_entries k (iter_item_classes m))%list.
Proof.
  apply found_fold_entries. intros c Hc.
  by apply elem_of_iter_item_classes in Hc as (_ & _ & Hm).
Qed.

Lemma found_walk_state name s :
  default [] (_found (walk_state w name s) !! k)
  = (default [] (_found s !! k) ++ log_entries k (root_classes w name))%list.
Proof.
  unfold walk_state, root_classes.
  change (_found s) with (_found (log (Walk name) s)).
  generalize (log (Walk name) s) as s0.
  induction (walk_yield (walk_modules w name)) as [|m ms IH]; intros s0; simpl.
  - by rewrite app_nil_r.
  - by rewrite IH, found_record_all, log_entries_app, app_assoc.
Qed.

Lemma found_load_root name s :
  default [] (_found (load_root w name s).2 !! k)
  = (default [] (_found s !! k) ++ log_entries k (root_classes w name))%list.
Proof.
  rewrite load_root_eq. pose proof (found_walk_state name s) as H.
  destruct (walk_error (walk_modules w name)) as [e|]; [|done].
  destruct (isinstance e cImportError); [|done].
  by destruct (warn_only (walk_state w name s)) as [[]|].
Qed.

Lemma found_for_roots roots s :
  default [] (_found (for_each roots (load_root w) s).2 !! k)
  = (default [] (_found s !! k)
     ++ log_entries k (discovered w (warn_only s) roots))%list.
Proof.
  unfold discovered. revert s.
  induction roots as [|r roots IH]; intros s; simpl; [by rewrite app_nil_r|].
  unfold bind. destruct (load_root_items w r s) as [Ho _].
  destruct (load_root_frame w r s) as (_ & _ & Hw).
  pose proof (found_load_root r s) as Hf.
  destruct (load_root w r s) as [[[]|e] s1]; simpl in *; rewrite <- Ho.
  - by rewrite IH, Hw, Hf, log_entries_app, app_assoc.
  - by rewrite Hf, app_nil_r.
Qed.

Lemma found__load_all_items s :
  default [] (_found (_load_all_items w None s).2 !! k)
  = (default [] (_found s !! k)
     ++ log_entries k (discovered w (warn_only s) (item_modules s)))%list.
Proof.
  rewrite _load_all_items_eq. simpl.
  pose proof (found_for_roots (item_modules s) s) as H.
  by destruct (for_each (item_modules s) (load_root w) s) as [[[]|e] s1].
Qed.

End OccurrenceLog.

(** X5: Each discovery appends to the occurrence log, under every name, the
    declaring module of each class of that name it scans, in scan order.
    The log is not reset: a second discovery appends the same entries once
    more, although the index stays what it was. *)
Theorem occurrence_log_accumulates (w : World) (s : Loader) (k : string) :
  let once := (_load_all_items w None s).2 in
  let twice := (_load_all_items w None once).2 in
  let entries := log_entries k (discovered w (warn_only s) (item_modules s)) in
  default [] (_found once !! k) = (default [] (_found s !! k) ++ entries)%list
  /\ default [] (_found twice !! k)
     = (default [] (_found s !! k) ++ entries ++ entries)%list
  /\ _items twice = _items once.
Proof.
  intros once twice entries. subst once twice entries.
  destruct (_load_all_items_items w None s) as (_ & Hi & Hm & Hw).
  destruct (_load_all_items_items w None (_load_all_items w None s).2) as (_ & Hi2 & _).
  simpl in *. split; [apply found__load_all_items|]. split.
  - by rewrite !found__load_all_items, Hw, Hm, app_assoc.
  - rewrite Hi2, Hw, Hm, Hi. apply ins_all_idemp.
Qed.

(** ** Listing *)

Lemma ins_all_dom cs (d : gmap string ClassObj) k :
  is_Some (ins_all cs d !! k)
  <-> is_Some (d !! k) \/ exists c, c ∈ cs /\ cls_name c = k.
Proof.
  rewrite lookup_ins_all.
  destruct (last (filter (fun c => cls_name c = k) cs)) as [c|] eqn:E.
  - split; [|done]. intros _. right. exists c.
    apply last_Some_elem_of, list_elem_of_filter in E as [? ?]. done.
  - apply last_None in E. split; [by left|]. intros [H|(c & Hc & Hk)]; [done|].
    exfalso. by apply (filter_nil_not_elem_of _ _ c E).
Qed.

Lemma keys_elem_of (d : gmap string ClassObj) k :
  k ∈ (map_to_list d).*1 <-> is_Some (d !! k).
Proof.
  split; [|apply elem_of_keys].
  intros ([k' c] & -> & H)%list_elem_of_fmap. apply elem_of_map_to_list in H. by exists c.
Qed.

(** X8: On a registry not loaded yet whose discovery returns, [list] returns
    pairwise distinct names, and a name is listed exactly when it was a key
    of the index before or is the short name of an item class found under
    one of the roots. *)
Theorem list_after_discovery (w : World) (s s' : Loader) :
  _loaded s = false ->
  _load_all_items w None s = (Return tt, s') ->
  exists names,
    list_ w s = (Return names, s')
    /\ NoDup names
    /\ forall k, k ∈ names
         <-> is_Some (_items s !! k)
             \/ exists c, c ∈ item_modules s ≫= root_classes w /\ cls_name c = k.
Proof.
  intros Hl Hs. exists (map_to_list (_items s')).*1. split; [|split].
  - unfold list_, bind, gets. by rewrite bootstrap_eq, Hl, Hs.
  - apply NoDup_fst_map_to_list.
  - intros k. rewrite keys_elem_of.
    destruct (_load_all_items_items w None s) as (Ho & _). rewrite Hs in Ho. simpl in Ho.
    destruct (_load_all_items_Return w None s (eq_sym Ho)) as (s2 & Hs2 & _ & Hi & _).
    rewrite Hs in Hs2. injection Hs2 as <-. simpl in Hi. rewrite Hi. apply ins_all_dom.
Qed.

Lemma list_after_discovery_witness :
  exists names,
    list_ Scenario.shop Scenario.fresh = (Return names, Cases.loaded)
    /\ NoDup names
    /\ forall k, k ∈ names
         <-> is_Some (_items Scenario.fresh !! k)
             \/ exists c, c ∈ item_modules Scenario.fresh ≫= root_classes Scenario.shop
                          /\ cls_name c = k.
Proof.
  apply (list_after_discovery Scenario.shop Scenario.fresh Cases.loaded).
  - reflexivity.
  - vm_compute. reflexivity.
Defined.

(** ** Loading twice, loading any class *)

Lemma rsplit_dot_join m a :
  has_dot a = false -> rsplit_dot (m +:+ "." +:+ a) = Some (m, a).
Proof.
  intros Ha. induction m as [|x m IH].
  - change ("" +:+ "." +:+ a) with (String "."%char a). simpl.
    apply rsplit_dot_None in Ha. by rewrite Ha.
  - change (String x m +:+ "." +:+ a) with (String x (m +:+ "." +:+ a)). simpl.
    by rewrite IH.
Qed.

Lemma join_nonempty m a : m +:+ "." +:+ a <> "".
Proof. by destruct m. Qed.

Lemma load_class_cached w p s c s' :
  load w (Some p) s = (Return (PyClass c), s') ->
  p <> "" /\ _items s' !! p = Some c /\ _loaded s' = true.
Proof.
  intros Hload.
  assert (p <> "") as Hp.
  { intros ->. by rewrite load_falsy in Hload. }
  split; [done|]. rewrite load_eq, load_body_eq in Hload by done.
  destruct (get w (Some p) s) as [[cls|e] s1] eqn:Hget; [|done].
  destruct (get_Return_loaded _ _ _ _ _ Hp Hget) as [Hl1 ->].
  destruct (truthy (dict_get p (_items s1))) eqn:Ht.
  - injection Hload as Hv <-. unfold dict_get in Hv.
    destruct (_items s1 !! p) as [c1|]; [|done]. by injection Hv as ->.
  - unfold fallback in Hload.
    destruct (rsplit_dot p) as [[m a]|]; [|done].
    destruct (import_module w m) as [md|e]; [|done].
    destruct (lookup_var a (mod_vars md)) as [[|c1|b tag]|]; try done.
    injection Hload as -> <-. simpl. by rewrite lookup_insert_eq.
Qed.

(** X9: Once [load] has returned a class for a name, loading the same name
    again returns the same class and leaves the registry as it is, trace
    included: there is no second import and no second discovery. *)
Theorem load_again (w : World) (p : string) (s s' : Loader) (c : ClassObj) :
  load w (Some p) s = (Return (PyClass c), s') ->
  load w (Some p) s' = (Return (PyClass c), s').
Proof.
  intros (Hp & Hc & Hl)%load_class_cached.
  rewrite load_eq, load_body_eq, get_loaded by done.
  unfold dict_get. by rewrite Hc.
Qed.

Lemma load_again_witness :
  load Scenario.shop (Some "shop.items.product.Product")
    (load Scenario.shop (Some "shop.items.product.Product") Scenario.fresh).2
  = (Return (PyClass Scenario.Product),
     (load Scenario.shop (Some "shop.items.product.Product") Scenario.fresh).2).
Proof.
  apply (load_again Scenario.shop "shop.items.product.Product" Scenario.fresh).
  vm_compute. reflexivity.
Defined.

(** X10: [load] checks that the attribute is a class, not that it is an item
    class: for a path [m.a] that is not indexed, with no separator in [a],
    whose module [m] imports and binds [a] to any class, it imports [m]
    once, returns the class and indexes it under the whole path.  The path
    is then one of the names [list] gives, while the occurrence log knows
    nothing of it. *)
Theorem load_caches_any_class (w : World) (m a : string) (s s1 : Loader)
    (md : Module) (c : ClassObj) :
  let p := m +:+ "." +:+ a in
  has_dot a = false ->
  get w (Some p) s = (Return PyNone, s1) ->
  import_module w m = Return md ->
  lookup_var a (mod_vars md) = Some (PyClass c) ->
  exists s' names,
    load w (Some p) s = (Return (PyClass c), s')
    /\ _items s' !! p = Some c
    /\ _found s' = _found s1
    /\ trace s' = (trace s1 ++ [Import m])%list
    /\ list_ w s' = (Return names, s')
    /\ p ∈ names.
Proof.
  intros p Ha Hget Himp Hattr. pose proof (join_nonempty m a) as Hp. fold p in Hp.
  destruct (get_Return_loaded _ _ _ _ _ Hp Hget) as [Hl _].
  eexists _, _. split.
  { rewrite load_eq, load_body_eq, Hget by done. simpl. unfold fallback, p.
    by rewrite rsplit_dot_join, Himp, Hattr. }
  simpl. split; [by rewrite lookup_insert_eq|]. split; [done|]. split; [done|].
  split; [by apply list_loaded|].
  apply elem_of_keys. simpl. by rewrite lookup_insert_eq.
Qed.

Lemma load_caches_any_class_witness :
  exists s' names,
    load Cases.tools (Some "shop.items.product.Helper") Cases.loaded
      = (Return (PyClass Cases.helper), s')
    /\ _items s' !! "shop.items.product.Helper" = Some Cases.helper
    /\ _found s' = _found Cases.loaded
    /\ trace s' = (trace Cases.loaded ++ [Import "shop.items.product"])%list
    /\ list_ Cases.tools s' = (Return names, s')
    /\ "shop.items.product.Helper" ∈ names.
Proof.
  apply (load_caches_any_class Cases.tools "shop.items.product" "Helper"
           Cases.loaded Cases.loaded
           (mkModule "shop.items.product" [("Helper", PyClass Cases.helper)])
           Cases.helper).
  - reflexivity.
  - vm_compute. reflexivity.
  - reflexivity.
  - reflexivity.
Defined.

(** ** A lazy bootstrap that fails *)

(** X11: When the discovery of a registry not loaded yet raises, [get] and
    [list] raise the same exception to their caller, while [load] turns it
    into its warning and [None]; in each case the registry stays not
    loaded, so that the next call starts discovery over. *)
Theorem failed_bootstrap (w : World) (n : string) (s s1 : Loader) (e : exn) :
  _loaded s = false ->
  n <> "" ->
  _load_all_items w None s = (Raise e, s1) ->
  get w (Some n) s = (Raise e, s1)
  /\ list_ w s = (Raise e, s1)
  /\ load w (Some n) s = (Return PyNone, log (Warn (not_found_message (Some n))) s1)
  /\ _loaded s1 = false.
Proof.
  intros Hl Hn Hs.
  assert (get w (Some n) s = (Raise e, s1)) as Hget
    by (by rewrite get_eq, bootstrap_eq, Hl, Hs).
  split; [done|]. split; [|split].
  - unfold list_, bind. by rewrite bootstrap_eq, Hl, Hs.
  - by rewrite load_eq, load_body_eq, Hget.
  - destruct (_load_all_items_cases w None s) as [(s2 & Hs2 & _)|(e2 & s2 & Hs2 & H)];
      rewrite Hs in Hs2; [done|]. injection Hs2 as <- <-. congruence.
Qed.

Lemma failed_bootstrap_witness :
  get Scenario.shop (Some "Product") Cases.strict
    = (Raise ModuleNotFoundError, (_load_all_items Scenario.shop None Cases.strict).2)
  /\ list_ Scenario.shop Cases.strict
     = (Raise ModuleNotFoundError, (_load_all_items Scenario.shop None Cases.strict).2)
  /\ load Scenario.shop (Some "Product") Cases.strict
     = (Return PyNone,
        log (Warn (not_found_message (Some "Product")))
          (_load_all_items Scenario.shop None Cases.strict).2)
  /\ _loaded (_load_all_items Scenario.shop None Cases.strict).2 = false.
Proof.
  apply (failed_bootstrap Scenario.shop "Product" Cases.strict
           (_load_all_items Scenario.shop None Cases.strict).2 ModuleNotFoundError).
  - reflexivity.
  - discriminate.
  - vm_compute. reflexivity.
Defined.

(** ** What [get], [list] and [load] leave alone *)

Lemma no_import_in_root_events w wo rs p : Import p ∉ rs ≫= root_events w wo.
Proof.
  intros (r & Hev & _)%list_elem_of_bind. unfold root_events in Hev.
  apply elem_of_cons in Hev as [[=]|Hev].
  destruct (walk_error (walk_modules w r)) as [e|]; [|by apply elem_of_nil in Hev].
  destruct (isinstance e cImportError); [|by apply elem_of_nil in Hev].
  destruct wo as [[]|]; try by apply elem_of_nil in Hev.
  apply elem_of_cons in Hev as [[=]|Hev]. by apply elem_of_nil in Hev.
Qed.

Lemma bootstrap_trace w s :
  exists t, trace (bootstrap w s).2 = (trace s ++ t)%list /\ forall p, Import p ∉ t.
Proof.
  rewrite bootstrap_eq. destruct (_loaded s).
  - exists []. split; [by rewrite app_nil_r|]. intros p Hp. by apply elem_of_nil in Hp.
  - eexists. split; [apply _load_all_items_trace|]. intros p. apply no_import_in_root_events.
Qed.

(** X12: [get] and [list] never import: what they add to the trace, if
    anything, are the walks and warnings of the lazy bootstrap. *)
Theorem get_list_never_import (w : World) (name : option string) (s : Loader) :
  (exists t, trace (get w name s).2 = (trace s ++ t)%list /\ forall p, Import p ∉ t)
  /\ (exists t, trace (list_ w s).2 = (trace s ++ t)%list /\ forall p, Import p ∉ t).
Proof.
  destruct (bootstrap_trace w s) as (t & Ht & Hno). split.
  - destruct (truthy_name name) eqn:Hn.
    + destruct name as [n|]; [|done]. apply truthy_name_Some in Hn.
      exists t. split; [|done]. rewrite get_eq by done.
      by destruct (bootstrap w s) as [[[]|e] s1].
    + exists []. rewrite get_falsy by done. split; [by rewrite app_nil_r|].
      intros p Hp. by apply elem_of_nil in Hp.
  - exists t. split; [|done]. unfold list_, bind, gets.
    by destruct (bootstrap w s) as [[[]|e] s1].
Qed.

(** X13: On a loaded registry [load] never replaces an entry of the index: it
    writes only under a name that [get] did not find, so a class that
    discovery or an earlier [load] indexed stays where it is. *)
Theorem load_never_overwrites (w : World) (name : option string) (s : Loader)
    (k : string) (c : ClassObj) :
  _loaded s = true ->
  _items s !! k = Some c ->
  _items (load w name s).2 !! k = Some c.
Proof.
  intros Hl Hk. destruct (truthy_name name) eqn:Hn; [|by rewrite load_falsy].
  destruct name as [n|]; [|done]. apply truthy_name_Some in Hn.
  rewrite load_eq, load_body_eq, get_loaded by done.
  destruct (truthy (dict_get n (_items s))) eqn:Ht; [done|].
  assert (n <> k) as Hne.
  { intros ->. unfold dict_get in Ht. by rewrite Hk in Ht. }
  unfold fallback. destruct (rsplit_dot n) as [[m a]|]; [|done].
  destruct (import_module w m) as [md|e]; [|done].
  destruct (lookup_var a (mod_vars md)) as [[|c1|b tag]|]; try done.
  simpl. by rewrite lookup_insert_ne.
Qed.

Lemma load_never_overwrites_witness :
  _items (load Cases.tools (Some "shop.items.product.Helper") Cases.loaded).2 !! "Product"
  = Some Scenario.Product.
Proof.
  apply (load_never_overwrites Cases.tools (Some "shop.items.product.Helper")
           Cases.loaded "Product" Scenario.Product).
  - reflexivity.
  - vm_compute. reflexivity.
Defined.

(** ** Construction *)

Lemma default_root_truthy bot : truthy_name (Some (bot +:+ ".items")) = true.
Proof. by destruct bot. Qed.

(** X1: Eager construction, [lazy_load=False], appends [<BOT_NAME>.items] to
    the configured roots and discovers at once.  When it returns, the
    registry is loaded and every root has been walked.  When the configured
    roots are enumerated to their end and [<BOT_NAME>.items] does not
    import, it raises [AttributeError], [warn_only] not being set, and the
    registry stays not loaded. *)
Theorem eager_construction (w : World) (settings : Settings) (bot : string) :
  BOT_NAME settings = Some bot ->
  let r := __init__ w false settings in
  let configured := default [] (ITEM_MODULES settings) in
  item_modules r.2 = (configured ++ [bot +:+ ".items"])%list
  /\ (r.1 = Return tt ->
      _loaded r.2 = true /\ forall x, x ∈ item_modules r.2 -> Walk x ∈ trace r.2)
  /\ ((forall x, x ∈ configured -> walk_error (walk_modules w x) = None) ->
      (exists e, walk_error (walk_modules w (bot +:+ ".items")) = Some e
                 /\ isinstance e cImportError = true) ->
      r.1 = Raise AttributeError /\ _loaded r.2 = false).
Proof.
  intros Hbot r configured. subst r configured. unfold __init__. rewrite Hbot.
  set (s := __init settings). set (root := bot +:+ ".items").
  assert (item_modules (add_root (Some root) s)
          = (default [] (ITEM_MODULES settings) ++ [root])%list) as Hroots.
  { unfold add_root, root. by rewrite default_root_truthy. }
  destruct (_load_all_items_items w (Some root) s) as (_ & _ & Hm & _).
  split; [by rewrite Hm|]. split.
  - intros Hr. destruct (_load_all_items w (Some root) s) as [o s1] eqn:Hs.
    simpl in Hr. subst o.
    destruct (discovery_walks_all _ _ _ _ Hs) as (t & Ht & Hw).
    destruct (_load_all_items_cases w (Some root) s) as [(s2 & Hs2 & Hl)|(e & s2 & Hs2 & _)];
      rewrite Hs in Hs2; [|done]. injection Hs2 as <-.
    split; [done|]. intros x Hx. simpl. rewrite Ht. apply elem_of_app; right. by apply Hw.
  - intros Hconf (e & Hbad & He).
    destruct (discovery_stops w (Some root) s (default [] (ITEM_MODULES settings)) root []
                AttributeError) as (s' & t & Hs & Hl & _);
      [done| |unfold root_outcome; by rewrite Hbad, He|].
    { intros x Hx. unfold root_outcome. by rewrite (Hconf x Hx). }
    by rewrite Hs.
Qed.

Lemma eager_construction_witness :
  let r := __init__ Scenario.shop false (mkSettings (Some ["shop.items"]) (Some "bazaar")) in
  r.1 = Raise AttributeError /\ _loaded r.2 = false.
Proof.
  apply (eager_construction Scenario.shop
           (mkSettings (Some ["shop.items"]) (Some "bazaar")) "bazaar").
  - reflexivity.
  - intros x Hx. apply list_elem_of_singleton in Hx as ->. reflexivity.
  - exists ModuleNotFoundError. split; reflexivity.
Defined.

(** ** Where discovery stops on a constructed registry *)


